(** * Aeronomicon: T265 pose bridge and AprilTag precision landing

    A shallow embedding of [t265_precland_apriltags.py]: the MAVLink senders
    run by the background scheduler, the attitude callback, the operator's
    scale channel and one iteration of the acquisition loop, followed by the
    properties of the design document that they decide.

    Conventions of the embedding.
    - Python floats (and numpy float64 cells) are idealised as real numbers:
      rounding, infinities and NaN are not modelled.  Integers are [Z].
    - The module-level globals form one record, [state]; every function is a
      computation in a state-and-exception monad [M] over it.
    - The autopilot link ([vehicle]) is part of the state: the messages
      handed to [send_mavlink], in order, and a schedule saying which of the
      coming link calls raise.
    - [logging] calls are recorded, with their level, in the state. *)

From Stdlib Require Import Reals ZArith List String Bool Lra Lia.
From Stdlib Require Import RNsatz.
Import ListNotations.

Local Open Scope R_scope.

(* ================================================================== *)
(** * 4x4 homogeneous matrices (numpy arrays of shape (4, 4)) *)
(* ================================================================== *)

Definition vec4 : Type := (R * R * R * R)%type.
Definition mat4 : Type := (vec4 * vec4 * vec4 * vec4)%type.

Definition vget (v : vec4) (j : nat) : R :=
  let '(a, b, c, d) := v in
  match j with
  | O => a | 1%nat => b | 2%nat => c | _ => d
  end.

Definition vset (v : vec4) (j : nat) (x : R) : vec4 :=
  let '(a, b, c, d) := v in
  match j with
  | O => (x, b, c, d)
  | 1%nat => (a, x, c, d)
  | 2%nat => (a, b, x, d)
  | _ => (a, b, c, x)
  end.

Definition mrow (m : mat4) (i : nat) : vec4 :=
  let '(r0, r1, r2, r3) := m in
  match i with
  | O => r0 | 1%nat => r1 | 2%nat => r2 | _ => r3
  end.

(** [m[i][j]]; the program only uses literal indices between 0 and 3. *)
Definition mget (m : mat4) (i j : nat) : R := vget (mrow m i) j.

(** [m[i][j] = x] *)
Definition mset (m : mat4) (i j : nat) (x : R) : mat4 :=
  let '(r0, r1, r2, r3) := m in
  match i with
  | O => (vset r0 j x, r1, r2, r3)
  | 1%nat => (r0, vset r1 j x, r2, r3)
  | 2%nat => (r0, r1, vset r2 j x, r3)
  | _ => (r0, r1, r2, vset r3 j x)
  end.

Definition mbuild (f : nat -> nat -> R) : mat4 :=
  let i0 := 0%nat in let i1 := 1%nat in let i2 := 2%nat in let i3 := 3%nat in
  ((f i0 i0, f i0 i1, f i0 i2, f i0 i3),
   (f i1 i0, f i1 i1, f i1 i2, f i1 i3),
   (f i2 i0, f i2 i1, f i2 i2, f i2 i3),
   (f i3 i0, f i3 i1, f i3 i2, f i3 i3)).

(** [numpy.identity(4)] *)
Definition identity4 : mat4 :=
  ((1, 0, 0, 0), (0, 1, 0, 0), (0, 0, 1, 0), (0, 0, 0, 1)).

(** [a.dot(b)] *)
Definition mmul (a b : mat4) : mat4 :=
  mbuild (fun i j =>
            mget a i 0 * mget b 0 j + mget a i 1 * mget b 1 j
            + mget a i 2 * mget b 2 j + mget a i 3 * mget b 3 j).

(** Determinant of a 3x3 array given by its entries. *)
Definition det3 (f : nat -> nat -> R) : R :=
  let i0 := 0%nat in let i1 := 1%nat in let i2 := 2%nat in
  f i0 i0 * (f i1 i1 * f i2 i2 - f i1 i2 * f i2 i1)
  - f i0 i1 * (f i1 i0 * f i2 i2 - f i1 i2 * f i2 i0)
  + f i0 i2 * (f i1 i0 * f i2 i1 - f i1 i1 * f i2 i0).

Definition skip (i k : nat) : nat := if (k <? i)%nat then k else S k.

Definition cofactor (m : mat4) (i j : nat) : R :=
  (if Nat.even (i + j) then 1 else -1)
  * det3 (fun a b => mget m (skip i a) (skip j b)).

Definition det4 (m : mat4) : R :=
  mget m 0 0 * cofactor m 0 0 + mget m 0 1 * cofactor m 0 1
  + mget m 0 2 * cofactor m 0 2 + mget m 0 3 * cofactor m 0 3.

(** [numpy.linalg.inv]: the inverse, or [None] for the [LinAlgError] raised
    on a singular matrix. *)
Definition inv (m : mat4) : option mat4 :=
  let d := det4 m in
  if Req_dec_T d 0 then None
  else Some (mbuild (fun i j => cofactor m j i / d)).

(* ================================================================== *)
(** * The functions used from [math] and [transformations] *)
(* ================================================================== *)

(** [math.atan2(y, x)] *)
Definition atan2 (y x : R) : R :=
  if Rlt_dec 0 x then atan (y / x)
  else if Rlt_dec x 0 then
         if Rle_dec 0 y then atan (y / x) + PI else atan (y / x) - PI
       else if Rlt_dec 0 y then PI / 2
            else if Rlt_dec y 0 then - (PI / 2) else 0.

(** [_EPS = numpy.finfo(float).eps * 4.0] *)
Definition _EPS : R := 4 / 2 ^ 52.

(** [numpy.outer(q, q)[i, j]] *)
Definition outer (q : vec4) (i j : nat) : R := vget q i * vget q j.

(** [tf.quaternion_matrix([w, x, y, z])] *)
Definition quaternion_matrix (quaternion : vec4) : mat4 :=
  let '(w, x, y, z) := quaternion in
  let n := w * w + x * x + y * y + z * z in
  if Rlt_dec n _EPS then identity4
  else
    let s := sqrt (2 / n) in
    let q := (w * s, x * s, y * s, z * s) in
    ((1 - outer q 2 2 - outer q 3 3, outer q 1 2 - outer q 3 0,
      outer q 1 3 + outer q 2 0, 0),
     (outer q 1 2 + outer q 3 0, 1 - outer q 1 1 - outer q 3 3,
      outer q 2 3 - outer q 1 0, 0),
     (outer q 1 3 - outer q 2 0, outer q 2 3 + outer q 1 0,
      1 - outer q 1 1 - outer q 2 2, 0),
     (0, 0, 0, 1)).

(** [tf.euler_matrix(ai, aj, ak, 'sxyz')] *)
Definition euler_matrix (ai aj ak : R) : mat4 :=
  let si := sin ai in let sj := sin aj in let sk := sin ak in
  let ci := cos ai in let cj := cos aj in let ck := cos ak in
  let cc := ci * ck in let cs := ci * sk in
  let sc := si * ck in let ss := si * sk in
  ((cj * ck, sj * sc - cs, sj * cc + ss, 0),
   (cj * sk, sj * ss + cc, sj * cs - sc, 0),
   (- sj, cj * si, cj * ci, 0),
   (0, 0, 0, 1)).

(** [tf.euler_from_matrix(matrix, 'sxyz')] *)
Definition euler_from_matrix (m : mat4) : R * R * R :=
  let cy := sqrt (mget m 0 0 * mget m 0 0 + mget m 1 0 * mget m 1 0) in
  if Rlt_dec _EPS cy then
    (atan2 (mget m 2 1) (mget m 2 2),
     atan2 (- mget m 2 0) cy,
     atan2 (mget m 1 0) (mget m 0 0))
  else
    (atan2 (- mget m 1 2) (mget m 1 1),
     atan2 (- mget m 2 0) cy,
     0).

(** [tf.translation_from_matrix(matrix)] *)
Definition translation_from_matrix (m : mat4) : R * R * R :=
  (mget m 0 3, mget m 1 3, mget m 2 3).

(* ================================================================== *)
(** * Data: configuration, sensor samples, detections, MAVLink messages *)
(* ================================================================== *)

(** The module-level settings and the command-line options that the modelled
    functions read. *)
Record config : Type := mkConfig {
  body_offset_enabled : Z;
  body_offset_x : R;
  body_offset_y : R;
  body_offset_z : R;
  compass_enabled : Z;
  camera_orientation : Z;
  scale_calib_enable : bool;
  tag_landing_id : Z
}.

(** The values written in the script, with the default camera orientation. *)
Definition default_config : config :=
  {| body_offset_enabled := 0;
     body_offset_x := 5 / 100;
     body_offset_y := 0;
     body_offset_z := 0;
     compass_enabled := 0;
     camera_orientation := 1;
     scale_calib_enable := false;
     tag_landing_id := 0 |}.

Record vector : Type := mkVector { vx : R; vy : R; vz : R }.
Record quaternion : Type := mkQuaternion { qw : R; qx : R; qy : R; qz : R }.

(** [pose.get_pose_data()] *)
Record pose_data : Type := mkPose {
  translation : vector;
  rotation : quaternion;
  tracker_confidence : Z
}.

(** One detection returned by [at_detector.detect]. *)
Record tag : Type := mkTag {
  tag_id : Z;
  pose_t : R * R * R
}.

Definition pose_data_confidence_level : list string :=
  ["Failed"; "Low"; "Medium"; "High"]%string.

Definition home_lat : Z := 151269321.
Definition home_lon : Z := 16624301.
Definition home_alt : Z := 163000.

Inductive mav_frame : Type := MAV_FRAME_BODY_NED.
Inductive mav_severity : Type := MAV_SEVERITY_INFO.

(** The messages built through [vehicle.message_factory], with the arguments
    of the [*_encode] calls in their order. *)
Inductive mavlink_message : Type :=
| LANDING_TARGET (time_usec : Z) (target_num : Z) (frame : mav_frame)
                 (angle_x angle_y distance : R) (size_x size_y : R)
                 (x y z : R) (q : vec4) (type : Z) (position_valid : Z)
| VISION_POSITION_ESTIMATE (usec : Z) (x y z : R) (roll pitch yaw : R)
| VISION_POSITION_DELTA (time_usec : Z) (time_delta_usec : Z)
                        (angle_delta position_delta : list R) (confidence : R)
| STATUSTEXT (severity : mav_severity) (text : string)
| SET_GPS_GLOBAL_ORIGIN (target_system : Z) (latitude longitude altitude : Z)
| SET_HOME_POSITION (target_system : Z) (latitude longitude altitude : Z)
                    (x y z : R) (q : vec4)
                    (approach_x approach_y approach_z : R).

Definition is_statustext (m : mavlink_message) : bool :=
  match m with STATUSTEXT _ _ => true | _ => false end.

Inductive log_level : Type := DEBUG | INFO | WARNING | ERROR.

Inductive exn : Type :=
| LinkError      (* an exception raised by a call on the vehicle object *)
| LinAlgError    (* numpy.linalg.inv on a singular matrix *)
| ValueError     (* float() on text that is not a number *).

(** What a [logging] call reports. *)
Inductive log_text : Type :=
| Z_distance_is_zero
| Error_sending_landing_target (e : exn)
| Error_sending_vision_position_estimate (e : exn)
| Tracking_confidence (confidence_str : string)
| Error_sending_confidence_level (e : exn)
| Invalid_tracker_confidence (c : Z)
| Error_setting_global_origin (e : exn)
| Error_setting_home_position (e : exn)
| Set_EKF_home
| Received_first_ATTITUDE (degrees : R)
| Updated_heading_yaw (degrees : R)
| New_scale_is (scale : R)
| Invalid_input
| Error_waiting_for_frames
| Error_fetching_fisheye_frames
| Error_during_image_undistortion
| Error_during_AprilTag_detection
| Detected_landing_tag (id : Z) (x y z : R).

(* ================================================================== *)
(** * The globals, and the monad of the program *)
(* ================================================================== *)

Record state : Type := mkState {
  current_time : Z;
  data : option pose_data;
  current_confidence : option Z;
  H_aeroRef_aeroBody : option mat4;
  H_camera_tag : option mat4;
  is_landing_tag_detected : bool;
  heading_north_yaw : option R;
  scale_factor : R;
  (* the vehicle: messages passed to send_mavlink, oldest first, and for
     each coming call on the vehicle whether it raises (none does once the
     schedule is used up) *)
  outbox : list mavlink_message;
  link_faults : list bool;
  (* the records passed to logging, oldest first *)
  log : list (log_level * log_text)
}.

(** The globals as the script initialises them before the scheduler starts. *)
Definition initial_state (faults : list bool) : state :=
  {| current_time := 0;
     data := None;
     current_confidence := None;
     H_aeroRef_aeroBody := None;
     H_camera_tag := None;
     is_landing_tag_detected := false;
     heading_north_yaw := None;
     scale_factor := 1;
     outbox := [];
     link_faults := faults;
     log := [] |}.

Definition set_current_time (v : Z) (s : state) : state :=
  mkState v (data s) (current_confidence s) (H_aeroRef_aeroBody s)
          (H_camera_tag s) (is_landing_tag_detected s) (heading_north_yaw s)
          (scale_factor s) (outbox s) (link_faults s) (log s).

Definition set_data (v : option pose_data) (s : state) : state :=
  mkState (current_time s) v (current_confidence s) (H_aeroRef_aeroBody s)
          (H_camera_tag s) (is_landing_tag_detected s) (heading_north_yaw s)
          (scale_factor s) (outbox s) (link_faults s) (log s).

Definition set_current_confidence (v : option Z) (s : state) : state :=
  mkState (current_time s) (data s) v (H_aeroRef_aeroBody s)
          (H_camera_tag s) (is_landing_tag_detected s) (heading_north_yaw s)
          (scale_factor s) (outbox s) (link_faults s) (log s).

Definition set_H_aeroRef_aeroBody (v : option mat4) (s : state) : state :=
  mkState (current_time s) (data s) (current_confidence s) v
          (H_camera_tag s) (is_landing_tag_detected s) (heading_north_yaw s)
          (scale_factor s) (outbox s) (link_faults s) (log s).

Definition set_H_camera_tag (v : option mat4) (s : state) : state :=
  mkState (current_time s) (data s) (current_confidence s)
          (H_aeroRef_aeroBody s) v (is_landing_tag_detected s)
          (heading_north_yaw s) (scale_factor s) (outbox s) (link_faults s)
          (log s).

Definition set_is_landing_tag_detected (v : bool) (s : state) : state :=
  mkState (current_time s) (data s) (current_confidence s)
          (H_aeroRef_aeroBody s) (H_camera_tag s) v (heading_north_yaw s)
          (scale_factor s) (outbox s) (link_faults s) (log s).

Definition set_heading_north_yaw (v : option R) (s : state) : state :=
  mkState (current_time s) (data s) (current_confidence s)
          (H_aeroRef_aeroBody s) (H_camera_tag s) (is_landing_tag_detected s)
          v (scale_factor s) (outbox s) (link_faults s) (log s).

Definition set_scale_factor (v : R) (s : state) : state :=
  mkState (current_time s) (data s) (current_confidence s)
          (H_aeroRef_aeroBody s) (H_camera_tag s) (is_landing_tag_detected s)
          (heading_north_yaw s) v (outbox s) (link_faults s) (log s).

Definition set_outbox (v : list mavlink_message) (s : state) : state :=
  mkState (current_time s) (data s) (current_confidence s)
          (H_aeroRef_aeroBody s) (H_camera_tag s) (is_landing_tag_detected s)
          (heading_north_yaw s) (scale_factor s) v (link_faults s) (log s).

Definition set_link_faults (v : list bool) (s : state) : state :=
  mkState (current_time s) (data s) (current_confidence s)
          (H_aeroRef_aeroBody s) (H_camera_tag s) (is_landing_tag_detected s)
          (heading_north_yaw s) (scale_factor s) (outbox s) v (log s).

Definition set_log (v : list (log_level * log_text)) (s : state) : state :=
  mkState (current_time s) (data s) (current_confidence s)
          (H_aeroRef_aeroBody s) (H_camera_tag s) (is_landing_tag_detected s)
          (heading_north_yaw s) (scale_factor s) (outbox s) (link_faults s) v.

(** A computation reads and writes the globals and either returns a value or
    raises. *)
Definition M (A : Type) : Type := state -> (exn + A) * state.

Definition ret {A : Type} (a : A) : M A := fun s => (inr a, s).

Definition bind {A B : Type} (m : M A) (f : A -> M B) : M B :=
  fun s => match m s with
           | (inr a, s') => f a s'
           | (inl e, s') => (inl e, s')
           end.

Definition raise {A : Type} (e : exn) : M A := fun s => (inl e, s).

(** [try: body / except Exception as e: handler e] *)
Definition try_except {A : Type} (body : M A) (handler : exn -> M A) : M A :=
  fun s => match body s with
           | (inr a, s') => (inr a, s')
           | (inl e, s') => handler e s'
           end.

Definition get : M state := fun s => (inr s, s).
Definition modify (f : state -> state) : M unit := fun s => (inr tt, f s).

Declare Scope prog_scope.
Delimit Scope prog_scope with prog.
Notation "x <- m ;; k" := (bind m (fun x => k))
  (at level 61, m at next level, right associativity) : prog_scope.
Notation "m ;; k" := (bind m (fun _ => k))
  (at level 61, right associativity) : prog_scope.
Local Open Scope prog_scope.

Definition pass : M unit := ret tt.

Definition logging (lvl : log_level) (t : log_text) : M unit :=
  modify (fun s => set_log (log s ++ [(lvl, t)]) s).

(** Any call on the vehicle object consumes one entry of the schedule. *)
Definition link_call : M unit :=
  fun s => match link_faults s with
           | [] => (inr tt, s)
           | false :: rest => (inr tt, set_link_faults rest s)
           | true :: rest => (inl LinkError, set_link_faults rest s)
           end.

(** [vehicle.message_factory.<name>_encode(...)] *)
Definition encode (msg : mavlink_message) : M mavlink_message :=
  link_call ;; ret msg.

(** [vehicle.send_mavlink(msg)] *)
Definition send_mavlink (msg : mavlink_message) : M unit :=
  link_call ;; modify (fun s => set_outbox (outbox s ++ [msg]) s).

(** [vehicle.flush()] *)
Definition flush : M unit := link_call.

(* ================================================================== *)
(** * Functions for MAVLink *)
(* ================================================================== *)

Definition send_land_target_message : M unit :=
  s <- get ;;
  match is_landing_tag_detected s, H_camera_tag s with
  | true, Some H =>
      let x := mget H 0 3 in
      let y := mget H 1 3 in
      let z := mget H 2 3 in
      if Req_dec_T z 0 then
        logging WARNING Z_distance_is_zero
      else
        let x_offset_rad := atan2 x z in
        let y_offset_rad := atan2 y z in
        let distance := sqrt (x * x + y * y + z * z) in
        try_except
          (msg <- encode (LANDING_TARGET (current_time s) 0
                                         MAV_FRAME_BODY_NED
                                         x_offset_rad y_offset_rad distance
                                         0 0 0 0 0 (1, 0, 0, 0) 2 1) ;;
           send_mavlink msg ;;
           flush)
          (fun e => logging ERROR (Error_sending_landing_target e))
  | _, _ => pass
  end.

Definition send_vision_position_message : M unit :=
  s <- get ;;
  match H_aeroRef_aeroBody s with
  | Some H =>
      let '(roll, pitch, yaw) := euler_from_matrix H in
      let '(px, py, pz) := translation_from_matrix H in
      try_except
        (msg <- encode (VISION_POSITION_ESTIMATE (current_time s)
                                                 px py pz roll pitch yaw) ;;
         send_mavlink msg ;;
         flush)
        (fun e => logging ERROR (Error_sending_vision_position_estimate e))
  | None => pass
  end.

(** [float(c * 100 / 3)] for the integer [c] *)
Definition confidence_percent_of (c : Z) : R := IZR (c * 100) / 3.

Definition send_confidence_level_dummy_message : M unit :=
  s <- get ;;
  match data s with
  | Some d =>
      let c := tracker_confidence d in
      if ((0 <=? c) && (c <=? 3))%Z then
        let confidence_str :=
          nth (Z.to_nat c) pose_data_confidence_level EmptyString in
        logging INFO (Tracking_confidence confidence_str) ;;
        let confidence_percent := confidence_percent_of c in
        try_except
          (msg <- encode (VISION_POSITION_DELTA 0 0 [0; 0; 0] [0; 0; 0]
                                                confidence_percent) ;;
           send_mavlink msg ;;
           flush ;;
           s' <- get ;;
           if match current_confidence s' with
              | None => true
              | Some previous => negb (previous =? c)%Z
              end
           then
             modify (set_current_confidence (Some c)) ;;
             let confidence_status_string :=
               ("Tracking confidence: " ++ confidence_str)%string in
             status_msg <- encode (STATUSTEXT MAV_SEVERITY_INFO
                                              confidence_status_string) ;;
             send_mavlink status_msg ;;
             flush
           else pass)
          (fun e => logging ERROR (Error_sending_confidence_level e))
      else
        logging WARNING (Invalid_tracker_confidence c)
  | None => pass
  end.

(** [int(vehicle._master.source_system)]: the vehicle is connected with
    [source_system=1]. *)
Definition source_system : Z := 1.

Definition set_default_global_origin : M unit :=
  try_except
    (msg <- encode (SET_GPS_GLOBAL_ORIGIN source_system
                                          home_lat home_lon home_alt) ;;
     send_mavlink msg ;;
     flush)
    (fun e => logging ERROR (Error_setting_global_origin e)).

Definition set_default_home_position : M unit :=
  try_except
    (let x := 0 in
     let y := 0 in
     let z := 0 in
     let q := (1, 0, 0, 0) in
     let approach_x := 0 in
     let approach_y := 0 in
     let approach_z := 1 in
     msg <- encode (SET_HOME_POSITION source_system
                                      home_lat home_lon home_alt
                                      x y z q
                                      approach_x approach_y approach_z) ;;
     send_mavlink msg ;;
     flush)
    (fun e => logging ERROR (Error_setting_home_position e)).

Definition statustext_callback (text : string) : M unit :=
  if existsb (String.eqb text)
             ["GPS Glitch"; "GPS Glitch cleared";
              "EKF2 IMU1 ext nav yaw alignment complete"]%string
  then
    logging INFO Set_EKF_home ;;
    set_default_global_origin ;;
    set_default_home_position
  else pass.

(** [value] is the ATTITUDE message; only its yaw is read. *)
Definition att_msg_callback (yaw : R) : M unit :=
  s <- get ;;
  match heading_north_yaw s with
  | None =>
      modify (set_heading_north_yaw (Some yaw)) ;;
      logging INFO (Received_first_ATTITUDE (yaw * 180 / PI))
  | Some _ =>
      modify (set_heading_north_yaw (Some yaw)) ;;
      logging DEBUG (Updated_heading_yaw (yaw * 180 / PI))
  end.

(** One round of the loop of [scale_update]: [user_input] is what [float]
    makes of the line read, [None] when it raises [ValueError].  The lock
    around the assignment is the subject of [ScaleLock] below. *)
Definition scale_update_round (user_input : option R) : M unit :=
  try_except
    (v <- match user_input with
          | Some v => ret v
          | None => raise ValueError
          end ;;
     modify (set_scale_factor v) ;;
     logging INFO (New_scale_is v))
    (fun e =>
       match e with
       | ValueError => logging ERROR Invalid_input
       | _ => raise e
       end).

(* ================================================================== *)
(** * The main loop *)
(* ================================================================== *)

(** The two mount transforms chosen at start-up from [camera_orientation];
    [None] where the script logs an error and exits (or where the inverse
    would raise). *)
Definition H_aeroRef_T265Ref_const : mat4 :=
  ((0, 0, -1, 0), (1, 0, 0, 0), (0, -1, 0, 0), (0, 0, 0, 1)).

Record mounts : Type := mkMounts {
  H_aeroRef_T265Ref : mat4;
  H_T265body_aeroBody : mat4
}.

Definition select_mounts (orientation : Z) : option mounts :=
  if (orientation =? 0)%Z then
    match inv H_aeroRef_T265Ref_const with
    | Some i => Some (mkMounts H_aeroRef_T265Ref_const i)
    | None => None
    end
  else if (orientation =? 1)%Z then
    Some (mkMounts H_aeroRef_T265Ref_const
                   ((0, 1, 0, 0), (1, 0, 0, 0), (0, 0, -1, 0), (0, 0, 0, 1)))
  else None.

(** Lines 536-563: what the loop does with a pose frame.  [time_us] is the
    value of [int(round(time.time() * 1000000))]. *)
Definition process_pose (cfg : config) (mt : mounts)
           (time_us : Z) (d : pose_data) : M unit :=
  modify (set_current_time time_us) ;;
  modify (set_data (Some d)) ;;
  let H_T265Ref_T265body :=
    quaternion_matrix (qw (rotation d), qx (rotation d),
                       qy (rotation d), qz (rotation d)) in
  (* with frame_mutex: *)
  s0 <- get ;;
  let H_T265Ref_T265body :=
    mset H_T265Ref_T265body 0 3 (vx (translation d) * scale_factor s0) in
  s1 <- get ;;
  let H_T265Ref_T265body :=
    mset H_T265Ref_T265body 1 3 (vy (translation d) * scale_factor s1) in
  s2 <- get ;;
  let H_T265Ref_T265body :=
    mset H_T265Ref_T265body 2 3 (vz (translation d) * scale_factor s2) in
  let H := mmul (H_aeroRef_T265Ref mt)
                (mmul H_T265Ref_T265body (H_T265body_aeroBody mt)) in
  modify (set_H_aeroRef_aeroBody (Some H)) ;;
  H <- (if (body_offset_enabled cfg =? 1)%Z then
          let H_body_camera := euler_matrix 0 0 0 in
          let H_body_camera := mset H_body_camera 0 3 (body_offset_x cfg) in
          let H_body_camera := mset H_body_camera 1 3 (body_offset_y cfg) in
          let H_body_camera := mset H_body_camera 2 3 (body_offset_z cfg) in
          match inv H_body_camera with
          | None => raise LinAlgError
          | Some H_camera_body =>
              let H' := mmul H_body_camera (mmul H H_camera_body) in
              modify (set_H_aeroRef_aeroBody (Some H')) ;;
              ret H'
          end
        else ret H) ;;
  s3 <- get ;;
  match (compass_enabled cfg =? 1)%Z, heading_north_yaw s3 with
  | true, Some yaw =>
      modify (set_H_aeroRef_aeroBody
                (Some (mmul H (euler_matrix 0 0 yaw))))
  | _, _ => pass
  end.

(** Lines 611-617: the body of [for tag in tags]. *)
Definition handle_tag (cfg : config) (t : tag) : M unit :=
  if (tag_id t =? tag_landing_id cfg)%Z then
    modify (set_is_landing_tag_detected true) ;;
    modify (set_H_camera_tag (Some (euler_matrix 0 0 0))) ;;
    modify (fun s => set_H_camera_tag
                       (option_map (fun H => mset H 0 3 (fst (fst (pose_t t))))
                                   (H_camera_tag s)) s) ;;
    modify (fun s => set_H_camera_tag
                       (option_map (fun H => mset H 1 3 (snd (fst (pose_t t))))
                                   (H_camera_tag s)) s) ;;
    modify (fun s => set_H_camera_tag
                       (option_map (fun H => mset H 2 3 (snd (pose_t t)))
                                   (H_camera_tag s)) s) ;;
    s <- get ;;
    match H_camera_tag s with
    | Some H => logging INFO (Detected_landing_tag (tag_id t) (mget H 0 3)
                                                   (mget H 1 3) (mget H 2 3))
    | None => pass
    end
  else pass.

Fixpoint for_tag_in (cfg : config) (tags : list tag) : M unit :=
  match tags with
  | [] => pass
  | t :: rest => handle_tag cfg t ;; for_tag_in cfg rest
  end.

(** Lines 609-619. *)
Definition handle_tags (cfg : config) (tags : list tag) : M unit :=
  match tags with
  | _ :: _ => for_tag_in cfg tags
  | [] => modify (set_is_landing_tag_detected false)
  end.

(** What the camera and the detector deliver in one iteration. *)
Record frameset : Type := mkFrameset {
  wait_for_frames_raises : bool;
  pose_frame : option (Z * pose_data);   (* clock reading and pose data *)
  fisheye_raises : bool;
  remap_raises : bool;
  detection : option (list tag)          (* [None]: the detector raises *)
}.

(** One iteration of [while True], lines 524-619.  The debug output of
    lines 566-571 does not touch the globals.  The visualization of lines
    621-647, run only with [--visualization], is not part of this
    embedding: it does not touch the globals either, but its window calls
    are unguarded and it leaves the loop on the key q or a closed window,
    so nothing below speaks of how long the loop goes on. *)
Definition iteration (cfg : config) (mt : mounts) (f : frameset) : M unit :=
  if wait_for_frames_raises f then
    logging ERROR Error_waiting_for_frames
  else
    match pose_frame f with
    | Some (time_us, d) => process_pose cfg mt time_us d
    | None => pass
    end ;;
    if fisheye_raises f then
      logging ERROR Error_fetching_fisheye_frames
    else if remap_raises f then
      logging ERROR Error_during_image_undistortion
    else
      match detection f with
      | None => logging ERROR Error_during_AprilTag_detection
      | Some tags => handle_tags cfg tags
      end.

(* ================================================================== *)
(** * The process: what can happen once the scheduler has started *)
(* ================================================================== *)

Inductive event : Type :=
| Main_loop (f : frameset)
| Tick_vision_position
| Tick_confidence
| Tick_land_target
| STATUSTEXT_received (text : string)
| ATTITUDE_received (yaw : R)
| Operator_input (parsed : option R).

(** The ATTITUDE listener is registered only with the compass enabled, and
    the operator's thread is started only in calibration mode. *)
Definition react (cfg : config) (mt : mounts) (e : event) : M unit :=
  match e with
  | Main_loop f => iteration cfg mt f
  | Tick_vision_position => send_vision_position_message
  | Tick_confidence => send_confidence_level_dummy_message
  | Tick_land_target => send_land_target_message
  | STATUSTEXT_received text => statustext_callback text
  | ATTITUDE_received yaw =>
      if (compass_enabled cfg =? 1)%Z then att_msg_callback yaw else pass
  | Operator_input parsed =>
      if scale_calib_enable cfg then scale_update_round parsed else pass
  end.

Fixpoint run (cfg : config) (mt : mounts) (es : list event) : M unit :=
  match es with
  | [] => pass
  | e :: rest => react cfg mt e ;; run cfg mt rest
  end.

(** The states the globals can be in while the process runs. *)
Definition reachable (cfg : config) (s : state) : Prop :=
  exists mt faults es r,
    select_mounts (camera_orientation cfg) = Some mt /\
    run cfg mt es (initial_state faults) = (r, s).

(* ================================================================== *)
(** * The two threads that share [scale_factor] *)
(* ================================================================== *)

(** The acquisition loop (lines 540-545) and [scale_update] (lines 371-378)
    as two threads taking atomic steps in any order.  [frame_mutex] is a
    lock that one thread at a time holds; entering a [with frame_mutex]
    block is possible only while nobody holds it. *)
Module ScaleLock.

Inductive thread : Type := Main | Operator.

(** Where the acquisition loop stands. *)
Inductive main_at : Type :=
| Main_idle                                  (* before the pose sample *)
| Main_before_with (d : pose_data) (H : mat4)
| Main_at_543 (d : pose_data) (H : mat4)     (* inside the with block *)
| Main_at_544 (d : pose_data) (H : mat4)
| Main_at_545 (d : pose_data) (H : mat4)
| Main_end_of_with (d : pose_data) (H : mat4)
| Main_after_with (d : pose_data) (H : mat4). (* H_T265Ref_T265body is ready *)

(** Where [scale_update] stands. *)
Inductive operator_at : Type :=
| Op_in_input                                 (* blocked in input() *)
| Op_before_with (parsed : option R)
| Op_at_375 (parsed : option R)               (* inside the with block *)
| Op_end_of_with (raised : bool)
| Op_after_with (raised : bool).

Record system : Type := mkSystem {
  frame_mutex : option thread;
  shared_scale_factor : R;
  main : main_at;
  operator : operator_at
}.

Definition start : system :=
  {| frame_mutex := None;
     shared_scale_factor := 1;
     main := Main_idle;
     operator := Op_in_input |}.

Inductive action : Type :=
| Main_steps
| Main_gets_pose (d : pose_data)
| Operator_steps
| Operator_types (parsed : option R).

(** One atomic step; [None] when the thread cannot take it now (it waits for
    the lock, or the action does not fit where the thread stands). *)
Definition fire (a : action) (s : system) : option system :=
  match a with
  | Main_gets_pose d =>
      match main s with
      | Main_idle =>
          let H := quaternion_matrix (qw (rotation d), qx (rotation d),
                                      qy (rotation d), qz (rotation d)) in
          Some (mkSystem (frame_mutex s) (shared_scale_factor s)
                         (Main_before_with d H) (operator s))
      | _ => None
      end
  | Main_steps =>
      match main s with
      | Main_idle => None
      | Main_before_with d H =>
          match frame_mutex s with
          | None => Some (mkSystem (Some Main) (shared_scale_factor s)
                                   (Main_at_543 d H) (operator s))
          | Some _ => None
          end
      | Main_at_543 d H =>
          let H' := mset H 0 3 (vx (translation d) * shared_scale_factor s) in
          Some (mkSystem (frame_mutex s) (shared_scale_factor s)
                         (Main_at_544 d H') (operator s))
      | Main_at_544 d H =>
          let H' := mset H 1 3 (vy (translation d) * shared_scale_factor s) in
          Some (mkSystem (frame_mutex s) (shared_scale_factor s)
                         (Main_at_545 d H') (operator s))
      | Main_at_545 d H =>
          let H' := mset H 2 3 (vz (translation d) * shared_scale_factor s) in
          Some (mkSystem (frame_mutex s) (shared_scale_factor s)
                         (Main_end_of_with d H') (operator s))
      | Main_end_of_with d H =>
          Some (mkSystem None (shared_scale_factor s)
                         (Main_after_with d H) (operator s))
      | Main_after_with _ _ =>
          Some (mkSystem (frame_mutex s) (shared_scale_factor s)
                         Main_idle (operator s))
      end
  | Operator_types parsed =>
      match operator s with
      | Op_in_input =>
          Some (mkSystem (frame_mutex s) (shared_scale_factor s)
                         (main s) (Op_before_with parsed))
      | _ => None
      end
  | Operator_steps =>
      match operator s with
      | Op_in_input => None
      | Op_before_with parsed =>
          match frame_mutex s with
          | None => Some (mkSystem (Some Operator) (shared_scale_factor s)
                                   (main s) (Op_at_375 parsed))
          | Some _ => None
          end
      | Op_at_375 (Some v) =>
          Some (mkSystem (frame_mutex s) v (main s) (Op_end_of_with false))
      | Op_at_375 None =>
          Some (mkSystem (frame_mutex s) (shared_scale_factor s)
                         (main s) (Op_end_of_with true))
      | Op_end_of_with raised =>
          Some (mkSystem None (shared_scale_factor s)
                         (main s) (Op_after_with raised))
      | Op_after_with _ =>
          Some (mkSystem (frame_mutex s) (shared_scale_factor s)
                         (main s) Op_in_input)
      end
  end.

Fixpoint fire_all (acts : list action) (s : system) : option system :=
  match acts with
  | [] => Some s
  | a :: rest =>
      match fire a s with
      | Some s' => fire_all rest s'
      | None => None
      end
  end.

Definition reachable (s : system) : Prop :=
  exists acts, fire_all acts start = Some s.

Definition main_in_with (s : system) : bool :=
  match main s with
  | Main_at_543 _ _ | Main_at_544 _ _ | Main_at_545 _ _
  | Main_end_of_with _ _ => true
  | _ => false
  end.

Definition operator_in_with (s : system) : bool :=
  match operator s with
  | Op_at_375 _ | Op_end_of_with _ => true
  | _ => false
  end.

(** The sensor-local transform of sample [d] scaled by the one value [k]. *)
Definition scaled_by (k : R) (d : pose_data) : mat4 :=
  let H := quaternion_matrix (qw (rotation d), qx (rotation d),
                              qy (rotation d), qz (rotation d)) in
  mset (mset (mset H 0 3 (vx (translation d) * k))
             1 3 (vy (translation d) * k))
       2 3 (vz (translation d) * k).

End ScaleLock.

(* ================================================================== *)
(** * The design document's reading of the same operations *)
(* ================================================================== *)

(** A rigid transform: the rotation block of [rot], the translation
    [(x, y, z)], and the bottom row of a homogeneous matrix. *)
Definition rigid (rot : mat4) (x y z : R) : mat4 :=
  ((mget rot 0 0, mget rot 0 1, mget rot 0 2, x),
   (mget rot 1 0, mget rot 1 1, mget rot 1 2, y),
   (mget rot 2 0, mget rot 2 1, mget rot 2 2, z),
   (0, 0, 0, 1)).

Definition translation_matrix (x y z : R) : mat4 :=
  ((1, 0, 0, x), (0, 1, 0, y), (0, 0, 1, z), (0, 0, 0, 1)).

(** A rotation about the vertical axis only. *)
Definition yaw_rotation (yaw : R) : mat4 :=
  ((cos yaw, - sin yaw, 0, 0),
   (sin yaw, cos yaw, 0, 0),
   (0, 0, 1, 0),
   (0, 0, 0, 1)).

(** Section 4.1, step 1. *)
Definition spec_sensor_local (k : R) (d : pose_data) : mat4 :=
  rigid (quaternion_matrix (qw (rotation d), qx (rotation d),
                            qy (rotation d), qz (rotation d)))
        (vx (translation d) * k) (vy (translation d) * k)
        (vz (translation d) * k).

(** Section 4.1, steps 2 to 4: the Frame Converter. *)
Definition spec_nav_pose (cfg : config) (mt : mounts) (k : R)
           (heading : option R) (d : pose_data) : mat4 :=
  let mount_to_nav := H_aeroRef_T265Ref mt in
  let sensor_body_to_autopilot_body := H_T265body_aeroBody mt in
  let nav_pose :=
    mmul (mmul mount_to_nav (spec_sensor_local k d))
         sensor_body_to_autopilot_body in
  let nav_pose :=
    if (body_offset_enabled cfg =? 1)%Z then
      let offset_transform :=
        translation_matrix (body_offset_x cfg) (body_offset_y cfg)
                           (body_offset_z cfg) in
      let inverse_offset_transform :=
        translation_matrix (- body_offset_x cfg) (- body_offset_y cfg)
                           (- body_offset_z cfg) in
      mmul (mmul offset_transform nav_pose) inverse_offset_transform
    else nav_pose in
  match heading with
  | Some yaw => mmul nav_pose (yaw_rotation yaw)
  | None => nav_pose
  end.

(** Section 4.4: the number of levels in a sequence that differ from the
    level emitted before them, where before the first level [prev] was
    emitted ([None]: nothing yet, which differs from every level). *)
Fixpoint spec_changes (prev : option Z) (levels : list Z) : nat :=
  match levels with
  | [] => 0
  | c :: rest =>
      (match prev with
       | Some p => if (p =? c)%Z then 0 else 1
       | None => 1
       end + spec_changes (Some c) rest)%nat
  end.

(** The first, and the last, detection carrying the landing identifier. *)
Definition first_matching (cfg : config) (tags : list tag) : option tag :=
  find (fun t => (tag_id t =? tag_landing_id cfg)%Z) tags.

Definition last_matching (cfg : config) (tags : list tag) : option tag :=
  find (fun t => (tag_id t =? tag_landing_id cfg)%Z) (rev tags).

(** The landing-target geometry a detection resolves to. *)
Definition tag_transform (t : tag) : mat4 :=
  let '(x, y, z) := pose_t t in translation_matrix x y z.

(* ================================================================== *)
(** * Drivers used to state the properties *)
(* ================================================================== *)

(** The attitude samples of [yaws] delivered in order. *)
Fixpoint deliver_attitude (yaws : list R) : M unit :=
  match yaws with
  | [] => pass
  | yaw :: rest => att_msg_callback yaw ;; deliver_attitude rest
  end.

(** The latest pose sample has confidence [c]. *)
Definition with_confidence (c : Z) (s : state) : state :=
  set_data (Some match data s with
                 | Some d => mkPose (translation d) (rotation d) c
                 | None => mkPose (mkVector 0 0 0) (mkQuaternion 1 0 0 0) c
                 end) s.

(** The confidence task run once on each level of [levels]. *)
Fixpoint feed_confidence (levels : list Z) : M unit :=
  match levels with
  | [] => pass
  | c :: rest =>
      modify (with_confidence c) ;;
      send_confidence_level_dummy_message ;;
      feed_confidence rest
  end.

Definition statustext_count (s : state) : nat :=
  List.length (filter is_statustext (outbox s)).

(** None of the next [n] calls on the vehicle raises. *)
Definition next_calls_succeed (n : nat) (s : state) : bool :=
  forallb negb (firstn n (link_faults s)).

(** The mount transforms of the downward-facing camera (orientation 1). *)
Definition downward_mounts : mounts :=
  mkMounts H_aeroRef_T265Ref_const
           ((0, 1, 0, 0), (1, 0, 0, 0), (0, 0, -1, 0), (0, 0, 0, 1)).

(** An iteration without a pose frame in which the detector returns [tags]. *)
Definition frames_with_tags (tags : list tag) : frameset :=
  mkFrameset false None false false (Some tags).

(* ================================================================== *)
(** * Predicates used to state and prove the properties *)
(* ================================================================== *)

Definition valid_level (c : Z) : Prop := (0 <= c <= 3)%Z.

(** Whether level [c] differs from the level emitted before. *)
Definition differs (prev : option Z) (c : Z) : bool :=
  match prev with
  | Some p => negb (p =? c)%Z
  | None => true
  end.

Definition confidence_text (c : Z) : string :=
  ("Tracking confidence: "
     ++ nth (Z.to_nat c) pose_data_confidence_level EmptyString)%string.

(** A computation that leaves [heading_north_yaw] alone, however it ends. *)
Definition heading_kept {A : Type} (m : M A) : Prop :=
  forall s, heading_north_yaw (snd (m s)) = heading_north_yaw s.

(** A process with the compass and the body offset enabled. *)
Definition offset_compass_config : config :=
  {| body_offset_enabled := 1;
     body_offset_x := 5 / 100;
     body_offset_y := 0;
     body_offset_z := 0;
     compass_enabled := 1;
     camera_orientation := 1;
     scale_calib_enable := true;
     tag_landing_id := 0 |}.

Definition sample_pose : pose_data :=
  mkPose (mkVector 1 2 3) (mkQuaternion 1 0 0 0) 3.

(** The lock is held by exactly the thread that is inside its [with]
    block, and the two threads are never inside together. *)
Definition lock_invariant (s : ScaleLock.system) : Prop :=
  match ScaleLock.main_in_with s, ScaleLock.operator_in_with s with
  | true, false => ScaleLock.frame_mutex s = Some ScaleLock.Main
  | false, true => ScaleLock.frame_mutex s = Some ScaleLock.Operator
  | false, false => ScaleLock.frame_mutex s = None
  | true, true => False
  end.

Definition unscaled (d : pose_data) : mat4 :=
  quaternion_matrix (qw (rotation d), qx (rotation d),
                     qy (rotation d), qz (rotation d)).

(** What the acquisition loop has written so far was scaled by the value
    [scale_factor] has now; once it has left its block, by some one value. *)
Definition progress_invariant (s : ScaleLock.system) : Prop :=
  let k := ScaleLock.shared_scale_factor s in
  match ScaleLock.main s with
  | ScaleLock.Main_idle => True
  | ScaleLock.Main_before_with d H => H = unscaled d
  | ScaleLock.Main_at_543 d H => H = unscaled d
  | ScaleLock.Main_at_544 d H =>
      H = mset (unscaled d) 0 3 (vx (translation d) * k)
  | ScaleLock.Main_at_545 d H =>
      H = mset (mset (unscaled d) 0 3 (vx (translation d) * k))
               1 3 (vy (translation d) * k)
  | ScaleLock.Main_end_of_with d H => H = ScaleLock.scaled_by k d
  | ScaleLock.Main_after_with d H => exists k', H = ScaleLock.scaled_by k' d
  end.

(** An interleaving: the operator types 2, which is assigned; the loop takes
    its sample and enters its block; the operator types 3 and has to wait
    until the loop has left its block, then assigns. *)
Definition interleaving_example : list ScaleLock.action :=
  [ScaleLock.Operator_types (Some 2);
   ScaleLock.Operator_steps; ScaleLock.Operator_steps;
   ScaleLock.Operator_steps; ScaleLock.Operator_steps;
   ScaleLock.Main_gets_pose sample_pose;
   ScaleLock.Main_steps;
   ScaleLock.Operator_types (Some 3);
   ScaleLock.Main_steps; ScaleLock.Main_steps; ScaleLock.Main_steps;
   ScaleLock.Main_steps;
   ScaleLock.Operator_steps; ScaleLock.Operator_steps].

Definition interleaving_example_end : ScaleLock.system :=
  ScaleLock.mkSystem
    (Some ScaleLock.Operator) 3
    (ScaleLock.Main_after_with sample_pose
                               (ScaleLock.scaled_by 2 sample_pose))
    (ScaleLock.Op_end_of_with false).

(* ================================================================== *)
(** * Relations between the globals before and after a computation *)
(* ================================================================== *)

(** A relation that holds across doing nothing and across two computations
    in sequence. *)
Class Compatible (Rel : state -> state -> Prop) : Prop := {
  rel_refl : forall s, Rel s s;
  rel_trans : forall a b c, Rel a b -> Rel b c -> Rel a c
}.

(** [m] takes every state to a related one, however it ends. *)
Definition related {A : Type} (Rel : state -> state -> Prop) (m : M A) : Prop :=
  forall s, Rel s (snd (m s)).

(** [m] ends normally from every state. *)
Definition returns {A : Type} (m : M A) : Prop :=
  forall s, exists a s', m s = (inr a, s').

(** What the acquisition loop, the attitude callback and the operator
    publish is untouched. *)
Definition same_navigation (s s' : state) : Prop :=
  current_time s' = current_time s /\
  data s' = data s /\
  H_aeroRef_aeroBody s' = H_aeroRef_aeroBody s /\
  H_camera_tag s' = H_camera_tag s /\
  is_landing_tag_detected s' = is_landing_tag_detected s /\
  heading_north_yaw s' = heading_north_yaw s /\
  scale_factor s' = scale_factor s.

(** The vehicle is untouched: nothing is sent and no call is made on it. *)
Definition same_link (s s' : state) : Prop :=
  outbox s' = outbox s /\ link_faults s' = link_faults s.

(** The landing-target state is untouched. *)
Definition same_target (s s' : state) : Prop :=
  H_camera_tag s' = H_camera_tag s /\
  is_landing_tag_detected s' = is_landing_tag_detected s.

(** A property of the globals that, once true, stays true. *)
Definition keeps (P : state -> Prop) (s s' : state) : Prop := P s -> P s'.

(** The value of one global, or of anything computed from the globals, is
    untouched. *)
Definition same_on {X : Type} (f : state -> X) (s s' : state) : Prop :=
  f s' = f s.


(** With the flag set there is a geometry for the sender to read, and it is
    a pure translation. *)
Definition target_present (s : state) : Prop :=
  is_landing_tag_detected s = true ->
  exists x y z, H_camera_tag s = Some (translation_matrix x y z).

(* ================================================================== *)
(** * Rigid transforms *)
(* ================================================================== *)

Definition transpose (m : mat4) : mat4 := mbuild (fun i j => mget m j i).

(** The rotation block of [m] alone, as a homogeneous matrix. *)
Definition rotation_part (m : mat4) : mat4 :=
  ((mget m 0 0, mget m 0 1, mget m 0 2, 0),
   (mget m 1 0, mget m 1 1, mget m 1 2, 0),
   (mget m 2 0, mget m 2 1, mget m 2 2, 0),
   (0, 0, 0, 1)).

(** The rotation block is orthonormal and the bottom row is that of a
    homogeneous transform. *)
Definition is_rigid (m : mat4) : Prop :=
  mmul (rotation_part m) (transpose (rotation_part m)) = identity4 /\
  mrow m 3 = (0, 0, 0, 1).

(** What the senders and the rest of an iteration leave of a published
    pose, and of the link. *)
Definition same_pose_and_link (s s' : state) : Prop :=
  current_time s' = current_time s /\
  H_aeroRef_aeroBody s' = H_aeroRef_aeroBody s /\
  outbox s' = outbox s /\
  link_faults s' = link_faults s.

(** The events of the scheduler. *)
Definition is_tick (e : event) : bool :=
  match e with
  | Tick_vision_position | Tick_confidence | Tick_land_target => true
  | _ => false
  end.

(** The texts of the STATUSTEXT messages that re-anchor the origin. *)
Definition reanchor_texts : list string :=
  ["GPS Glitch"; "GPS Glitch cleared";
   "EKF2 IMU1 ext nav yaw alignment complete"]%string.

Definition origin_message : mavlink_message :=
  SET_GPS_GLOBAL_ORIGIN 1 151269321 16624301 163000.

Definition home_message : mavlink_message :=
  SET_HOME_POSITION 1 151269321 16624301 163000 0 0 0 (1, 0, 0, 0) 0 0 1.

(** Nothing has been published yet: no pose sample, no navigation pose, no
    detected landing tag. *)
Definition nothing_published (s : state) : Prop :=
  data s = None /\ H_aeroRef_aeroBody s = None /\
  is_landing_tag_detected s = false.

(* ================================================================== *)
(** * Example inputs *)
(* ================================================================== *)

(** The mount transforms of the forward-facing camera (orientation 0). *)
Definition forward_mounts : mounts :=
  mkMounts H_aeroRef_T265Ref_const
           ((0, 1, 0, 0), (0, 0, -1, 0), (-1, 0, 0, 0), (0, 0, 0, 1)).

(** A forward-facing camera with the compass enabled. *)
Definition forward_compass_config : config :=
  {| body_offset_enabled := 0;
     body_offset_x := 5 / 100;
     body_offset_y := 0;
     body_offset_z := 0;
     compass_enabled := 1;
     camera_orientation := 0;
     scale_calib_enable := false;
     tag_landing_id := 0 |}.

(** A pose frame at one second whose images cannot be fetched. *)
Definition frames_without_images : frameset :=
  mkFrameset false (Some (1000000%Z, sample_pose)) true false None.

(** A pose frame at one second with two detections of the landing tag. *)
Definition frames_with_two_landing_tags : frameset :=
  mkFrameset false (Some (1000000%Z, sample_pose)) false false
             (Some [mkTag 0 (1, 0, 1); mkTag 0 (2, 0, 1)]).

(** The loop has taken a sample and entered its [with] block. *)
Definition lock_held_example : list ScaleLock.action :=
  [ScaleLock.Main_gets_pose sample_pose; ScaleLock.Main_steps].

Definition lock_held_example_end : ScaleLock.system :=
  ScaleLock.mkSystem (Some ScaleLock.Main) 1
                     (ScaleLock.Main_at_543 sample_pose (unscaled sample_pose))
                     ScaleLock.Op_in_input.

(* ================================================================== *)
(** * Running the monad *)
(* ================================================================== *)

Ltac unfold_prog :=
  unfold encode, send_mavlink, flush, logging, pass, link_call in *;
  unfold bind, get, modify, ret, try_except, raise in *.

(** Split the fault schedule as far as the program looks into it. *)
Ltac split_faults :=
  repeat match goal with
         | |- context [match ?l with [] => _ | _ :: _ => _ end] =>
             is_var l; destruct l as [|[|] ?]; cbn
         end.

Lemma bind_inr {A B : Type} (m : M A) (f : A -> M B) s a s' :
  m s = (inr a, s') -> bind m f s = f a s'.
Proof. intros E. unfold bind. rewrite E. reflexivity. Qed.

Lemma bind_inl {A B : Type} (m : M A) (f : A -> M B) s e s' :
  m s = (inl e, s') -> bind m f s = (inl e, s').
Proof. intros E. unfold bind. rewrite E. reflexivity. Qed.

(* ================================================================== *)
(** * Heading capture (section 4.5) *)
(* ================================================================== *)

Lemma att_msg_callback_heading yaw s :
  heading_north_yaw (snd (att_msg_callback yaw s)) = Some yaw.
Proof.
  unfold att_msg_callback. unfold_prog.
  destruct (heading_north_yaw s); reflexivity.
Qed.

Lemma att_msg_callback_returns yaw s :
  fst (att_msg_callback yaw s) = inr tt.
Proof.
  unfold att_msg_callback. unfold_prog.
  destruct (heading_north_yaw s); reflexivity.
Qed.

(** After any non-empty run of attitude samples the stored yaw is that of
    the latest one. *)
Lemma deliver_attitude_latest yaws y s :
  heading_north_yaw (snd (deliver_attitude (yaws ++ [y]) s)) = Some y.
Proof.
  revert s. induction yaws as [|y0 yaws IH]; intros s; simpl.
  - unfold bind.
    pose proof (att_msg_callback_heading y s) as Hh.
    pose proof (att_msg_callback_returns y s) as Hr.
    destruct (att_msg_callback y s) as [[e|[]] s']; simpl in *.
    + discriminate.
    + exact Hh.
  - unfold bind at 1.
    pose proof (att_msg_callback_returns y0 s) as Hr.
    destruct (att_msg_callback y0 s) as [[e|[]] s']; simpl in *.
    + discriminate.
    + apply IH.
Qed.

(** C1 (the code departs from the claim).  With the samples 1 rad and then
    2 rad delivered to [att_msg_callback] from the initial globals, the
    stored heading yaw is 2, the second sample's, and not 1, the first
    sample's: the [else] branch assigns [heading_north_yaw] again. *)
Theorem heading_relatched_by_second_sample :
  let s := snd (deliver_attitude [1; 2] (initial_state [])) in
  heading_north_yaw s = Some 2 /\ heading_north_yaw s <> Some 1.
Proof.
  cbn. split.
  - reflexivity.
  - intros H. injection H. lra.
Qed.

(* ================================================================== *)
(** * Matrices *)
(* ================================================================== *)

Ltac tuple_eq :=
  repeat match goal with |- (_, _) = (_, _) => apply f_equal2 end.

Lemma euler_matrix_0 : euler_matrix 0 0 0 = identity4.
Proof.
  unfold euler_matrix, identity4. rewrite sin_0, cos_0. tuple_eq; ring.
Qed.

Lemma euler_matrix_yaw yaw : euler_matrix 0 0 yaw = yaw_rotation yaw.
Proof.
  unfold euler_matrix, yaw_rotation. rewrite sin_0, cos_0. tuple_eq; ring.
Qed.

Lemma identity_with_translation x y z :
  mset (mset (mset identity4 0 3 x) 1 3 y) 2 3 z = translation_matrix x y z.
Proof. reflexivity. Qed.

(* ================================================================== *)
(** * Tag handling in the main loop (lines 609-619) *)
(* ================================================================== *)

Lemma handle_tag_other cfg t s :
  (tag_id t =? tag_landing_id cfg)%Z = false ->
  handle_tag cfg t s = (inr tt, s).
Proof. intros E. unfold handle_tag. rewrite E. reflexivity. Qed.

Lemma handle_tag_landing cfg t s :
  (tag_id t =? tag_landing_id cfg)%Z = true ->
  exists s',
    handle_tag cfg t s = (inr tt, s') /\
    is_landing_tag_detected s' = true /\
    H_camera_tag s' = Some (tag_transform t).
Proof.
  intros E. unfold handle_tag. rewrite E, euler_matrix_0. unfold_prog.
  unfold tag_transform. destruct (pose_t t) as [[x y] z].
  eexists. split; [reflexivity|]. split; reflexivity.
Qed.

Lemma find_app_first {A : Type} (f : A -> bool) (l1 l2 : list A) :
  find f (l1 ++ l2) =
  match find f l1 with Some a => Some a | None => find f l2 end.
Proof.
  induction l1 as [|a l1 IH]; simpl; [reflexivity|].
  destruct (f a); [reflexivity|exact IH].
Qed.

Lemma find_all_false {A : Type} (f : A -> bool) (l : list A) :
  (forall x, In x l -> f x = false) -> find f l = None.
Proof.
  induction l as [|a l IH]; intros H; simpl; [reflexivity|].
  rewrite (H a (or_introl eq_refl)). apply IH.
  intros x Hx. apply H. right. exact Hx.
Qed.

Lemma last_matching_cons cfg t tags :
  last_matching cfg (t :: tags) =
  match last_matching cfg tags with
  | Some u => Some u
  | None => if (tag_id t =? tag_landing_id cfg)%Z then Some t else None
  end.
Proof.
  unfold last_matching. simpl. rewrite find_app_first.
  destruct (find _ (rev tags)); [reflexivity|].
  simpl. destruct (tag_id t =? tag_landing_id cfg)%Z; reflexivity.
Qed.

Lemma last_matching_none cfg tags :
  last_matching cfg tags = None <-> first_matching cfg tags = None.
Proof.
  unfold last_matching, first_matching. split; intros H.
  - apply find_all_false. intros x Hx.
    apply (find_none _ _ H). apply in_rev in Hx. exact Hx.
  - apply find_all_false. intros x Hx.
    apply (find_none _ _ H). apply in_rev. exact Hx.
Qed.

(** What the [for] loop leaves behind: every matching detection overwrites
    the geometry, so the last one stays; without a match nothing changes. *)
Lemma for_tag_in_effect cfg tags : forall s,
  exists s',
    for_tag_in cfg tags s = (inr tt, s') /\
    match last_matching cfg tags with
    | Some t => is_landing_tag_detected s' = true /\
                H_camera_tag s' = Some (tag_transform t)
    | None => s' = s
    end.
Proof.
  induction tags as [|t tags IH]; intros s.
  - exists s. split; reflexivity.
  - simpl for_tag_in. rewrite last_matching_cons.
    destruct (tag_id t =? tag_landing_id cfg)%Z eqn:E.
    + destruct (handle_tag_landing cfg t s E) as (s1 & R1 & F1 & H1).
      rewrite (bind_inr _ _ _ _ _ R1).
      destruct (IH s1) as (s' & R & P). exists s'. split; [exact R|].
      destruct (last_matching cfg tags); [exact P|].
      subst s'. split; assumption.
    + rewrite (bind_inr _ _ _ _ _ (handle_tag_other cfg t s E)).
      destruct (IH s) as (s' & R & P). exists s'. split; [exact R|].
      destruct (last_matching cfg tags); exact P.
Qed.

(** Without a detection of the landing identifier the geometry is kept, and
    the flag is cleared only if the detector returned no tag at all. *)
Lemma handle_tags_without_match cfg tags s :
  first_matching cfg tags = None ->
  let s' := snd (handle_tags cfg tags s) in
  H_camera_tag s' = H_camera_tag s /\
  is_landing_tag_detected s' =
    match tags with
    | [] => false
    | _ :: _ => is_landing_tag_detected s
    end.
Proof.
  intros Hn. destruct tags as [|t tags].
  - cbn. split; reflexivity.
  - unfold handle_tags.
    destruct (for_tag_in_effect cfg (t :: tags) s) as (s' & R & P).
    apply last_matching_none in Hn. rewrite Hn in P. subst s'.
    rewrite R. split; reflexivity.
Qed.

(** C2 (the code departs from the claim).  The landing tag (identifier 0) is
    seen in one iteration; in the next the detector returns only a tag with
    identifier 7.  No tag of the landing identifier is among its results,
    yet the flag is still set afterwards: it is cleared only in the [else]
    of [if tags], that is, when the detector returns nothing.  The geometry
    is kept, as the claim says. *)
Theorem flag_survives_foreign_tag :
  let s0 := initial_state [] in
  let s1 := snd (iteration default_config downward_mounts
                           (frames_with_tags [mkTag 0 (0, 0, 1)]) s0) in
  let s2 := snd (iteration default_config downward_mounts
                           (frames_with_tags [mkTag 7 (0, 0, 1)]) s1) in
  first_matching default_config [mkTag 7 (0, 0, 1)] = None /\
  is_landing_tag_detected s1 = true /\
  is_landing_tag_detected s2 = true /\
  H_camera_tag s2 = H_camera_tag s1.
Proof.
  cbn. repeat split; reflexivity.
Qed.

(** C3, as the claim states it, fails: with two detections of the landing
    identifier in one frame, the geometry left for the landing-target
    sender is not that of the first one. *)
Lemma first_matching_tag_not_resolved :
  let tags := [mkTag 0 (1, 0, 1); mkTag 0 (2, 0, 1)] in
  let s' := snd (handle_tags default_config tags (initial_state [])) in
  H_camera_tag s' <>
  option_map tag_transform (first_matching default_config tags).
Proof.
  cbv zeta. unfold handle_tags.
  destruct (for_tag_in_effect
              default_config [mkTag 0 (1, 0, 1); mkTag 0 (2, 0, 1)]
              (initial_state [])) as (s' & R & P).
  rewrite R. cbn in P. destruct P as [_ P]. cbn. rewrite P.
  intros H. injection H. lra.
Qed.

(** C3, amended.  When detections of the landing identifier are among the
    detector's results, tag handling returns normally with the flag set and
    with the geometry of the last of them: each matching detection
    overwrites the one before it. *)
Theorem last_matching_tag_is_resolved cfg tags t s :
  last_matching cfg tags = Some t ->
  exists s',
    handle_tags cfg tags s = (inr tt, s') /\
    is_landing_tag_detected s' = true /\
    H_camera_tag s' = Some (tag_transform t).
Proof.
  intros Hl. destruct tags as [|t0 tags]; [discriminate|].
  unfold handle_tags.
  destruct (for_tag_in_effect cfg (t0 :: tags) s) as (s' & R & P).
  rewrite Hl in P. exists s'. split; [exact R|exact P].
Qed.

Lemma last_matching_tag_is_resolved_witness :
  exists s',
    handle_tags default_config [mkTag 0 (1, 0, 1); mkTag 0 (2, 0, 1)]
                (initial_state []) = (inr tt, s') /\
    is_landing_tag_detected s' = true /\
    H_camera_tag s' = Some (translation_matrix 2 0 1).
Proof.
  apply (last_matching_tag_is_resolved
           default_config [mkTag 0 (1, 0, 1); mkTag 0 (2, 0, 1)]
           (mkTag 0 (2, 0, 1)) (initial_state [])).
  reflexivity.
Defined.

(* ================================================================== *)
(** * The confidence task (section 4.4) *)
(* ================================================================== *)

Lemma valid_level_test c :
  valid_level c -> ((0 <=? c) && (c <=? 3))%Z = true.
Proof.
  intros [H0 H3]. apply andb_true_iff. split; apply Z.leb_le; assumption.
Qed.

Lemma invalid_level_test c :
  ~ valid_level c -> ((0 <=? c) && (c <=? 3))%Z = false.
Proof.
  intros H. apply not_true_is_false. intros E. apply H.
  apply andb_true_iff in E. destruct E as [H0 H3].
  apply Z.leb_le in H0. apply Z.leb_le in H3. split; assumption.
Qed.

Lemma confidence_percent_scaled c :
  confidence_percent_of c = IZR c * 100 / 3.
Proof. unfold confidence_percent_of. rewrite mult_IZR. reflexivity. Qed.

(** A tick of the confidence task while the link works. *)
Lemma confidence_tick_clean s d :
  data s = Some d ->
  valid_level (tracker_confidence d) ->
  link_faults s = [] ->
  exists s',
    send_confidence_level_dummy_message s = (inr tt, s') /\
    link_faults s' = [] /\
    current_confidence s' = Some (tracker_confidence d) /\
    outbox s' =
      outbox s
      ++ VISION_POSITION_DELTA 0 0 [0; 0; 0] [0; 0; 0]
                               (confidence_percent_of (tracker_confidence d))
      :: (if differs (current_confidence s) (tracker_confidence d)
          then [STATUSTEXT MAV_SEVERITY_INFO
                           (confidence_text (tracker_confidence d))]
          else []).
Proof.
  intros Hd Hv Hf. apply valid_level_test in Hv.
  destruct s as [ct dt cc Ha Hc fl hy sf ob lf lg]. cbn in Hd, Hf. subst.
  unfold send_confidence_level_dummy_message, confidence_text.
  unfold_prog. cbn. rewrite Hv. cbn.
  destruct cc as [p|]; cbn.
  - destruct (p =? tracker_confidence d)%Z eqn:Ep; cbn.
    + apply Z.eqb_eq in Ep. subst p.
      eexists. split; [reflexivity|]. cbn. repeat split; reflexivity.
    + eexists. split; [reflexivity|]. cbn. repeat split; try reflexivity.
      rewrite <- app_assoc. reflexivity.
  - eexists. split; [reflexivity|]. cbn. repeat split; try reflexivity.
    rewrite <- app_assoc. reflexivity.
Qed.

Lemma statustext_count_app s msgs :
  List.length (filter is_statustext (outbox s ++ msgs)) =
  (statustext_count s + List.length (filter is_statustext msgs))%nat.
Proof. unfold statustext_count. rewrite filter_app, length_app. reflexivity. Qed.

(** C4, as the claim states it, fails: starting with no level emitted, the
    sequence 2, 2, 2, 3, 3, 1 does not issue exactly two status
    notifications. *)
Lemma confidence_notifications_not_two :
  statustext_count
    (snd (feed_confidence [2; 2; 2; 3; 3; 1]%Z (initial_state []))) <> 2%nat.
Proof. vm_compute. discriminate. Qed.

(** C4, amended.  While the link works, feeding a sequence of valid levels
    through the confidence task issues one status notification for every
    level that differs from the level emitted before it, the first level
    counting as a change when nothing was emitted yet: three for
    2, 2, 2, 3, 3, 1 (the first 2, then 2 to 3 and 3 to 1). *)
Theorem confidence_notifications_count levels : forall s,
  Forall valid_level levels ->
  link_faults s = [] ->
  exists s',
    feed_confidence levels s = (inr tt, s') /\
    statustext_count s' =
      (statustext_count s + spec_changes (current_confidence s) levels)%nat.
Proof.
  induction levels as [|c levels IH]; intros s Hv Hf.
  - exists s. split; [reflexivity|]. simpl. lia.
  - inversion Hv as [|c' l' Hc Hl]; subst.
    simpl feed_confidence. unfold modify at 1. unfold bind at 1.
    set (s1 := with_confidence c s).
    assert (Hd : exists d, data s1 = Some d /\ tracker_confidence d = c).
    { unfold s1, with_confidence. destruct (data s); eexists; split;
        reflexivity. }
    destruct Hd as (d & Hd & Hdc).
    assert (Hf1 : link_faults s1 = []) by (destruct s; exact Hf).
    assert (Hv1 : valid_level (tracker_confidence d)) by (rewrite Hdc; exact Hc).
    destruct (confidence_tick_clean s1 d Hd Hv1 Hf1) as (s2 & R & Hf2 & Hc2 & Ho).
    rewrite (bind_inr _ _ _ _ _ R).
    destruct (IH s2 Hl Hf2) as (s' & R' & Hn).
    exists s'. split; [exact R'|].
    rewrite Hn, Hc2, Hdc. simpl spec_changes.
    unfold statustext_count at 1. rewrite Ho, statustext_count_app.
    replace (statustext_count s1) with (statustext_count s)
      by (destruct s; reflexivity).
    replace (current_confidence s1) with (current_confidence s)
      by (destruct s; reflexivity).
    rewrite Hdc. unfold differs.
    destruct (current_confidence s) as [p|]; simpl.
    + destruct (p =? c)%Z; simpl; lia.
    + lia.
Qed.

Lemma confidence_notifications_count_witness :
  exists s',
    feed_confidence [2; 2; 2; 3; 3; 1]%Z (initial_state []) = (inr tt, s') /\
    statustext_count s' = 3%nat.
Proof.
  apply (confidence_notifications_count [2; 2; 2; 3; 3; 1]%Z
                                        (initial_state [])).
  - repeat constructor; unfold valid_level; lia.
  - reflexivity.
Defined.

Lemma next_two_calls_succeed s :
  next_calls_succeed 2 s = true ->
  link_faults s = [] \/ link_faults s = [false] \/
  exists rest, link_faults s = false :: false :: rest.
Proof.
  unfold next_calls_succeed.
  destruct (link_faults s) as [|[|] [|[|] rest]]; cbn; intros H;
    try discriminate; eauto.
Qed.

(** C8.  On a tick of the confidence task on which a pose sample exists,
    with its level between 0 and 3 and the link accepting the message (the
    encode and send calls do not raise), the task returns normally having
    sent one VISION_POSITION_DELTA whose confidence is level * 100 / 3,
    whatever level was emitted before; the only message that may follow it
    is the status notification. *)
Theorem confidence_percentage_sent s d :
  data s = Some d ->
  valid_level (tracker_confidence d) ->
  next_calls_succeed 2 s = true ->
  exists s' later,
    send_confidence_level_dummy_message s = (inr tt, s') /\
    outbox s' =
      outbox s
      ++ VISION_POSITION_DELTA 0 0 [0; 0; 0] [0; 0; 0]
                               (IZR (tracker_confidence d) * 100 / 3)
      :: later /\
    (later = [] \/
     later = [STATUSTEXT MAV_SEVERITY_INFO
                         (confidence_text (tracker_confidence d))]).
Proof.
  intros Hd Hv Hf. apply valid_level_test in Hv.
  rewrite <- confidence_percent_scaled.
  apply next_two_calls_succeed in Hf.
  destruct s as [ct dt cc Ha Hc fl hy sf ob lf lg]. cbn in Hd, Hf. subst.
  unfold send_confidence_level_dummy_message, confidence_text.
  destruct Hf as [Hf|[Hf|[rest Hf]]]; subst lf;
    unfold_prog; cbn; rewrite Hv; cbn;
    repeat (first
              [ progress split_faults
              | match goal with
                | |- context [match ?c with Some _ => _ | None => _ end] =>
                    is_var c; destruct c; cbn
                | |- context [negb (?a =? ?b)%Z] =>
                    destruct (a =? b)%Z; cbn
                end ]);
    eexists; eexists; (split; [reflexivity|]); cbn;
    rewrite <- ?app_assoc; cbn; split; eauto.
Qed.

Lemma confidence_percentage_sent_witness :
  exists s' later,
    send_confidence_level_dummy_message
      (with_confidence 1 (initial_state [false; false; true])) = (inr tt, s') /\
    outbox s' = [VISION_POSITION_DELTA 0 0 [0; 0; 0] [0; 0; 0] (1 * 100 / 3)]
                  ++ later /\
    (later = [] \/
     later = [STATUSTEXT MAV_SEVERITY_INFO "Tracking confidence: Low"]).
Proof.
  apply (confidence_percentage_sent
           (with_confidence 1 (initial_state [false; false; true]))
           (mkPose (mkVector 0 0 0) (mkQuaternion 1 0 0 0) 1)).
  - reflexivity.
  - unfold valid_level. simpl. lia.
  - reflexivity.
Defined.

(** C10.  When the latest pose sample's confidence lies outside 0..3, a tick
    of the confidence task returns normally and changes nothing but the log,
    which gains one warning: no call is made on the link, no message is
    sent, and the last emitted level stays as it was. *)
Theorem invalid_confidence_only_logs s d :
  data s = Some d ->
  ~ valid_level (tracker_confidence d) ->
  send_confidence_level_dummy_message s =
    (inr tt,
     set_log (log s ++ [(WARNING,
                         Invalid_tracker_confidence (tracker_confidence d))])
             s) /\
  outbox (snd (send_confidence_level_dummy_message s)) = outbox s /\
  current_confidence (snd (send_confidence_level_dummy_message s)) =
    current_confidence s /\
  link_faults (snd (send_confidence_level_dummy_message s)) = link_faults s.
Proof.
  intros Hd Hv. apply invalid_level_test in Hv.
  assert (E : send_confidence_level_dummy_message s =
              (inr tt,
               set_log (log s ++ [(WARNING,
                                   Invalid_tracker_confidence
                                     (tracker_confidence d))]) s)).
  { unfold send_confidence_level_dummy_message. unfold_prog.
    rewrite Hd, Hv. reflexivity. }
  rewrite E. repeat split; reflexivity.
Qed.

Lemma invalid_confidence_only_logs_witness :
  let s := with_confidence 4 (initial_state [true]) in
  send_confidence_level_dummy_message s =
    (inr tt, set_log [(WARNING, Invalid_tracker_confidence 4)] s) /\
  outbox (snd (send_confidence_level_dummy_message s)) = [] /\
  current_confidence (snd (send_confidence_level_dummy_message s)) = None /\
  link_faults (snd (send_confidence_level_dummy_message s)) = [true].
Proof.
  apply (invalid_confidence_only_logs
           (with_confidence 4 (initial_state [true]))
           (mkPose (mkVector 0 0 0) (mkQuaternion 1 0 0 0) 4)).
  - reflexivity.
  - unfold valid_level. simpl. lia.
Defined.

(* ================================================================== *)
(** * The landing-target sender (section 4.2) *)
(* ================================================================== *)

Lemma atan2_zero_numerator z : 0 < z -> atan2 0 z = 0.
Proof.
  intros Hz. unfold atan2. destruct (Rlt_dec 0 z) as [_|N]; [|contradiction].
  unfold Rdiv. rewrite Rmult_0_l. apply atan_0.
Qed.

(** C6.  With the flag set, a stored translation (x, y, z) whose z is not
    zero, and the link accepting the message, a tick of the landing-target
    sender returns normally having sent exactly one LANDING_TARGET that
    carries angle_x = atan2(x, z), angle_y = atan2(y, z) and
    distance = sqrt(x*x + y*y + z*z). *)
Theorem land_target_bearing_and_range s H :
  is_landing_tag_detected s = true ->
  H_camera_tag s = Some H ->
  mget H 2 3 <> 0 ->
  next_calls_succeed 2 s = true ->
  let x := mget H 0 3 in
  let y := mget H 1 3 in
  let z := mget H 2 3 in
  exists s',
    send_land_target_message s = (inr tt, s') /\
    outbox s' =
      outbox s
      ++ [LANDING_TARGET (current_time s) 0 MAV_FRAME_BODY_NED
                         (atan2 x z) (atan2 y z)
                         (sqrt (x * x + y * y + z * z))
                         0 0 0 0 0 (1, 0, 0, 0) 2 1].
Proof.
  intros Hd Ht Hz Hf x y z.
  apply next_two_calls_succeed in Hf.
  unfold send_land_target_message. unfold bind at 1. unfold get at 1.
  rewrite Hd, Ht. fold x y z.
  destruct (Req_dec_T z 0) as [E|_]; [contradiction|].
  generalize (atan2 x z) (atan2 y z) (sqrt (x * x + y * y + z * z)).
  intros bx by_ rng. clear Hd Ht Hz x y z H.
  destruct s as [ct dt cc Ha Hc fl hy sf ob lf lg]. cbn in Hf.
  destruct Hf as [Hf|[Hf|[rest Hf]]]; subst lf;
    unfold_prog; cbn; split_faults;
    eexists; (split; [reflexivity|]); reflexivity.
Qed.

(** The example of the design document: the translation (0.1, 0.0, 2.0). *)
Lemma land_target_bearing_and_range_witness :
  let s := set_is_landing_tag_detected true
             (set_H_camera_tag (Some (translation_matrix (1 / 10) 0 2))
                               (initial_state [])) in
  exists s',
    send_land_target_message s = (inr tt, s') /\
    outbox s' =
      [LANDING_TARGET 0 0 MAV_FRAME_BODY_NED
                      (atan2 (1 / 10) 2) 0
                      (sqrt ((1 / 10) * (1 / 10) + 2 * 2))
                      0 0 0 0 0 (1, 0, 0, 0) 2 1].
Proof.
  intros s.
  destruct (land_target_bearing_and_range
              s (translation_matrix (1 / 10) 0 2)) as (s' & R & O).
  - reflexivity.
  - reflexivity.
  - cbn. lra.
  - reflexivity.
  - exists s'. split; [exact R|].
    rewrite O. cbn.
    rewrite atan2_zero_numerator by lra.
    replace (1 / 10 * (1 / 10) + 0 * 0 + 2 * 2)
      with (1 / 10 * (1 / 10) + 2 * 2) by ring.
    reflexivity.
Defined.

(** C7.  When the stored translation has z = 0, a tick of the
    landing-target sender returns normally (nothing is raised), makes no
    call on the link and sends nothing, and leaves the stored geometry and
    the flag as they were; with the flag set it logs one warning. *)
Theorem land_target_withheld_at_zero_range s H :
  H_camera_tag s = Some H ->
  mget H 2 3 = 0 ->
  send_land_target_message s =
    (inr tt,
     if is_landing_tag_detected s
     then set_log (log s ++ [(WARNING, Z_distance_is_zero)]) s
     else s) /\
  outbox (snd (send_land_target_message s)) = outbox s /\
  link_faults (snd (send_land_target_message s)) = link_faults s /\
  H_camera_tag (snd (send_land_target_message s)) = Some H /\
  is_landing_tag_detected (snd (send_land_target_message s)) =
    is_landing_tag_detected s.
Proof.
  intros Ht Hz.
  assert (E : send_land_target_message s =
              (inr tt,
               if is_landing_tag_detected s
               then set_log (log s ++ [(WARNING, Z_distance_is_zero)]) s
               else s)).
  { unfold send_land_target_message. unfold bind at 1. unfold get at 1.
    rewrite Ht. destruct (is_landing_tag_detected s); [|reflexivity].
    destruct (Req_dec_T (mget H 2 3) 0) as [_|N]; [|contradiction].
    reflexivity. }
  rewrite E. rewrite <- Ht.
  destruct (is_landing_tag_detected s) eqn:Ef; cbn;
    repeat split; try reflexivity; exact Ef.
Qed.

Lemma land_target_withheld_at_zero_range_witness :
  let s := set_is_landing_tag_detected true
             (set_H_camera_tag (Some (translation_matrix 1 2 0))
                               (initial_state [true])) in
  send_land_target_message s =
    (inr tt, set_log [(WARNING, Z_distance_is_zero)] s) /\
  outbox (snd (send_land_target_message s)) = [] /\
  link_faults (snd (send_land_target_message s)) = [true] /\
  H_camera_tag (snd (send_land_target_message s)) =
    Some (translation_matrix 1 2 0) /\
  is_landing_tag_detected (snd (send_land_target_message s)) = true.
Proof.
  apply (land_target_withheld_at_zero_range
           (set_is_landing_tag_detected true
              (set_H_camera_tag (Some (translation_matrix 1 2 0))
                                (initial_state [true])))
           (translation_matrix 1 2 0)).
  - reflexivity.
  - reflexivity.
Defined.

(* ================================================================== *)
(** * Who writes the heading reference *)
(* ================================================================== *)

Lemma heading_kept_ret {A : Type} (a : A) : heading_kept (ret a).
Proof. intros s. reflexivity. Qed.

Lemma heading_kept_raise {A : Type} e : heading_kept (@raise A e).
Proof. intros s. reflexivity. Qed.

Lemma heading_kept_get : heading_kept get.
Proof. intros s. reflexivity. Qed.

Lemma heading_kept_bind {A B : Type} (m : M A) (f : A -> M B) :
  heading_kept m -> (forall a, heading_kept (f a)) -> heading_kept (bind m f).
Proof.
  intros Hm Hf s. unfold bind. specialize (Hm s).
  destruct (m s) as [[e|a] s1]; simpl in *.
  - exact Hm.
  - rewrite (Hf a s1). exact Hm.
Qed.

Lemma heading_kept_try_except {A : Type} (m : M A) (h : exn -> M A) :
  heading_kept m -> (forall e, heading_kept (h e)) ->
  heading_kept (try_except m h).
Proof.
  intros Hm Hh s. unfold try_except. specialize (Hm s).
  destruct (m s) as [[e|a] s1]; simpl in *.
  - rewrite (Hh e s1). exact Hm.
  - exact Hm.
Qed.

Lemma heading_kept_modify (f : state -> state) :
  (forall s, heading_north_yaw (f s) = heading_north_yaw s) ->
  heading_kept (modify f).
Proof. intros Hf s. apply Hf. Qed.

Lemma heading_kept_link_call : heading_kept link_call.
Proof.
  intros s. unfold link_call. destruct (link_faults s) as [|[|] rest];
    reflexivity.
Qed.

Ltac heading_kept_step :=
  first
    [ apply heading_kept_bind; [|intros ?]
    | apply heading_kept_try_except; [|intros ?]
    | apply heading_kept_ret
    | apply heading_kept_raise
    | apply heading_kept_get
    | apply heading_kept_link_call
    | apply heading_kept_modify; intros ?; reflexivity
    | match goal with
      | |- heading_kept (match ?x with _ => _ end) => destruct x
      end ].

Ltac heading_kept_auto := repeat heading_kept_step.

Lemma heading_kept_logging lvl t : heading_kept (logging lvl t).
Proof. unfold logging. heading_kept_auto. Qed.

Lemma heading_kept_encode msg : heading_kept (encode msg).
Proof. unfold encode. heading_kept_auto. Qed.

Lemma heading_kept_send_mavlink msg : heading_kept (send_mavlink msg).
Proof. unfold send_mavlink. heading_kept_auto. Qed.

Lemma heading_kept_send_land_target_message :
  heading_kept send_land_target_message.
Proof.
  unfold send_land_target_message, logging, encode, send_mavlink, flush, pass.
  heading_kept_auto.
Qed.

Lemma heading_kept_send_vision_position_message :
  heading_kept send_vision_position_message.
Proof.
  unfold send_vision_position_message, logging, encode, send_mavlink, flush,
    pass.
  heading_kept_auto.
Qed.

Lemma heading_kept_send_confidence_level_dummy_message :
  heading_kept send_confidence_level_dummy_message.
Proof.
  unfold send_confidence_level_dummy_message, logging, encode, send_mavlink,
    flush, pass.
  heading_kept_auto.
Qed.

Lemma heading_kept_statustext_callback text :
  heading_kept (statustext_callback text).
Proof.
  unfold statustext_callback, set_default_global_origin,
    set_default_home_position, logging, encode, send_mavlink, flush, pass.
  heading_kept_auto.
Qed.

Lemma heading_kept_scale_update_round parsed :
  heading_kept (scale_update_round parsed).
Proof.
  unfold scale_update_round, logging. heading_kept_auto.
Qed.

Lemma heading_kept_process_pose cfg mt time_us d :
  heading_kept (process_pose cfg mt time_us d).
Proof.
  unfold process_pose, pass. cbv zeta. heading_kept_auto.
Qed.

Lemma heading_kept_for_tag_in cfg tags : heading_kept (for_tag_in cfg tags).
Proof.
  induction tags as [|t tags IH]; simpl.
  - apply heading_kept_ret.
  - apply heading_kept_bind; [|intros _; exact IH].
    unfold handle_tag, logging, pass. heading_kept_auto.
Qed.

Lemma heading_kept_iteration cfg mt f : heading_kept (iteration cfg mt f).
Proof.
  unfold iteration, handle_tags.
  destruct (wait_for_frames_raises f); [apply heading_kept_logging|].
  apply heading_kept_bind.
  - destruct (pose_frame f) as [[time_us d]|].
    + apply heading_kept_process_pose.
    + apply heading_kept_ret.
  - intros _.
    destruct (fisheye_raises f); [apply heading_kept_logging|].
    destruct (remap_raises f); [apply heading_kept_logging|].
    destruct (detection f) as [[|t tags]|].
    + heading_kept_auto.
    + apply heading_kept_for_tag_in.
    + apply heading_kept_logging.
Qed.

(** Without the compass no event writes the heading reference. *)
Lemma heading_kept_react cfg mt e :
  (compass_enabled cfg =? 1)%Z = false -> heading_kept (react cfg mt e).
Proof.
  intros Hc. destruct e; simpl.
  - apply heading_kept_iteration.
  - apply heading_kept_send_vision_position_message.
  - apply heading_kept_send_confidence_level_dummy_message.
  - apply heading_kept_send_land_target_message.
  - apply heading_kept_statustext_callback.
  - rewrite Hc. apply heading_kept_ret.
  - destruct (scale_calib_enable cfg).
    + apply heading_kept_scale_update_round.
    + apply heading_kept_ret.
Qed.

Lemma heading_kept_run cfg mt es :
  (compass_enabled cfg =? 1)%Z = false -> heading_kept (run cfg mt es).
Proof.
  intros Hc. induction es as [|e es IH]; simpl.
  - apply heading_kept_ret.
  - apply heading_kept_bind; [|intros _; exact IH].
    apply heading_kept_react. exact Hc.
Qed.

(** The heading reference is set only in a process started with the compass
    enabled. *)
Lemma heading_unset_without_compass cfg s :
  reachable cfg s ->
  (compass_enabled cfg =? 1)%Z = false ->
  heading_north_yaw s = None.
Proof.
  intros (mt & faults & es & r & _ & R) Hc.
  pose proof (heading_kept_run cfg mt es Hc (initial_state faults)) as K.
  rewrite R in K. exact K.
Qed.

(* ================================================================== *)
(** * The Frame Converter (section 4.1) *)
(* ================================================================== *)

Lemma mmul_assoc a b c : mmul (mmul a b) c = mmul a (mmul b c).
Proof.
  destruct a as [[[[[[a00 a01] a02] a03] [[[a10 a11] a12] a13]]
                   [[[a20 a21] a22] a23]] [[[a30 a31] a32] a33]].
  destruct b as [[[[[[b00 b01] b02] b03] [[[b10 b11] b12] b13]]
                   [[[b20 b21] b22] b23]] [[[b30 b31] b32] b33]].
  destruct c as [[[[[[c00 c01] c02] c03] [[[c10 c11] c12] c13]]
                   [[[c20 c21] c22] c23]] [[[c30 c31] c32] c33]].
  unfold mmul, mbuild. cbn. tuple_eq; ring.
Qed.

Lemma det4_translation x y z : det4 (translation_matrix x y z) = 1.
Proof. unfold det4, cofactor, det3. cbn. ring. Qed.

(** The offset transform is never singular, and its inverse is the
    translation back. *)
Lemma inv_translation x y z :
  inv (translation_matrix x y z) = Some (translation_matrix (- x) (- y) (- z)).
Proof.
  unfold inv. cbv zeta. rewrite det4_translation.
  destruct (Req_dec_T 1 0) as [E|_]; [lra|].
  f_equal. unfold mbuild, cofactor, det3, translation_matrix. cbn.
  tuple_eq; field.
Qed.

(** Writing the translation cells of a quaternion's matrix gives the rigid
    transform with that rotation and translation. *)
Lemma rigid_quaternion q x y z :
  mset (mset (mset (quaternion_matrix q) 0 3 x) 1 3 y) 2 3 z =
  rigid (quaternion_matrix q) x y z.
Proof.
  unfold quaternion_matrix. destruct q as [[[w a] b] c].
  destruct (Rlt_dec _ _); reflexivity.
Qed.

Section FrameConverter.

Local Arguments mmul : simpl never.
Local Arguments quaternion_matrix : simpl never.
Local Arguments euler_matrix : simpl never.
Local Arguments translation_matrix : simpl never.
Local Arguments rigid : simpl never.

(** What [process_pose] computes from the globals it reads, whatever they
    are: the composition of the code, with the yaw step taken when the
    compass is enabled and a heading is stored. *)
Lemma process_pose_result cfg mt time_us d s :
  exists s',
    process_pose cfg mt time_us d s = (inr tt, s') /\
    H_aeroRef_aeroBody s' =
      Some (spec_nav_pose cfg mt (scale_factor s)
                          (if (compass_enabled cfg =? 1)%Z
                           then heading_north_yaw s else None) d) /\
    data s' = Some d /\
    current_time s' = time_us.
Proof.
  unfold process_pose, spec_nav_pose, spec_sensor_local. cbv zeta.
  rewrite euler_matrix_0, identity_with_translation, inv_translation.
  rewrite <- rigid_quaternion.
  destruct s as [ct dt cc Ha Hc fl hy sf ob lf lg].
  unfold_prog. cbn.
  destruct (body_offset_enabled cfg =? 1)%Z; cbn;
    destruct (compass_enabled cfg =? 1)%Z; cbn;
    try destruct hy as [yaw|]; cbn;
    eexists; (split; [reflexivity|]); cbn;
    rewrite <- ?euler_matrix_yaw, ?mmul_assoc; repeat split; reflexivity.
Qed.

End FrameConverter.

(** C5.  In every state the process can reach, handling a pose sample
    returns normally and stores as navigation pose the composition of
    section 4.1: the sensor-local rigid transform of the sample's
    quaternion and of its translation times the current scale factor,
    between the two mount transforms; conjugated by the offset transform
    when the body offset is enabled; and multiplied on the right by the
    yaw-only rotation of the heading reference when one is set. *)
Theorem nav_pose_composition cfg mt time_us d s :
  reachable cfg s ->
  exists s',
    process_pose cfg mt time_us d s = (inr tt, s') /\
    H_aeroRef_aeroBody s' =
      Some (spec_nav_pose cfg mt (scale_factor s) (heading_north_yaw s) d).
Proof.
  intros Hr.
  destruct (process_pose_result cfg mt time_us d s) as (s' & R & Hn & _).
  exists s'. split; [exact R|]. rewrite Hn.
  destruct (compass_enabled cfg =? 1)%Z eqn:Ec; [reflexivity|].
  rewrite (heading_unset_without_compass cfg s Hr Ec). reflexivity.
Qed.

Lemma nav_pose_composition_witness :
  let s := snd (run offset_compass_config downward_mounts
                    [ATTITUDE_received (PI / 2); Operator_input (Some 2)]
                    (initial_state [])) in
  exists s',
    process_pose offset_compass_config downward_mounts 1000000 sample_pose s
      = (inr tt, s') /\
    H_aeroRef_aeroBody s' =
      Some (spec_nav_pose offset_compass_config downward_mounts 2
                          (Some (PI / 2)) sample_pose).
Proof.
  apply (nav_pose_composition
           offset_compass_config downward_mounts 1000000 sample_pose
           (snd (run offset_compass_config downward_mounts
                     [ATTITUDE_received (PI / 2); Operator_input (Some 2)]
                     (initial_state [])))).
  exists downward_mounts, [],
    [ATTITUDE_received (PI / 2); Operator_input (Some 2)], (inr tt).
  split; reflexivity.
Defined.

(* ================================================================== *)
(** * The scale factor under the lock (section 5) *)
(* ================================================================== *)

Lemma invariant_start :
  lock_invariant ScaleLock.start /\ progress_invariant ScaleLock.start.
Proof. split; exact I || reflexivity. Qed.

Lemma invariant_fire a s s' :
  lock_invariant s /\ progress_invariant s ->
  ScaleLock.fire a s = Some s' ->
  lock_invariant s' /\ progress_invariant s'.
Proof.
  unfold lock_invariant, progress_invariant, ScaleLock.main_in_with,
    ScaleLock.operator_in_with.
  destruct s as [lk k m o]. intros [L P] F.
  destruct a as [| d0 | | parsed]; cbn in F;
    destruct m as [|d H|d H|d H|d H|d H|d H]; try discriminate;
    destruct o as [|p|p|r|r]; try discriminate;
    cbn in L, P; try contradiction; subst;
    try (destruct p as [v|]); cbn in F;
    try discriminate; injection F as <-; cbn;
    try (split; [reflexivity|]); try reflexivity; try exact I;
    try (split; [exact I|reflexivity]);
    eauto.
Qed.

Lemma invariant_fire_all acts : forall s s',
  lock_invariant s /\ progress_invariant s ->
  ScaleLock.fire_all acts s = Some s' ->
  lock_invariant s' /\ progress_invariant s'.
Proof.
  induction acts as [|a acts IH]; intros s s' Hi F; simpl in F.
  - injection F as <-. exact Hi.
  - destruct (ScaleLock.fire a s) as [s1|] eqn:E; [|discriminate].
    apply (IH s1 s'); [|exact F].
    apply (invariant_fire a s s1 Hi E).
Qed.

Lemma fire_all_app acts1 acts2 s :
  ScaleLock.fire_all (acts1 ++ acts2) s =
  match ScaleLock.fire_all acts1 s with
  | Some s1 => ScaleLock.fire_all acts2 s1
  | None => None
  end.
Proof.
  revert s. induction acts1 as [|a acts1 IH]; intros s; simpl.
  - reflexivity.
  - destruct (ScaleLock.fire a s) as [s1|]; [apply IH|reflexivity].
Qed.

(** While the loop is inside its block no step of either thread changes the
    scale factor: the operator cannot be at its assignment. *)
Lemma scale_factor_stable_in_block a s s' :
  lock_invariant s ->
  ScaleLock.main_in_with s = true ->
  ScaleLock.fire a s = Some s' ->
  ScaleLock.shared_scale_factor s' = ScaleLock.shared_scale_factor s.
Proof.
  unfold lock_invariant, ScaleLock.main_in_with, ScaleLock.operator_in_with.
  destruct s as [lk k m o]. intros L Hin F.
  destruct a as [| d0 | | parsed]; cbn in F;
    destruct m as [|d H|d H|d H|d H|d H|d H]; try discriminate;
    destruct o as [|p|p|r|r]; try discriminate;
    cbn in L; try contradiction; subst;
    try discriminate;
    injection F as <-; reflexivity.
Qed.

(** The transform the loop holds after its block was complete, and scaled
    by the scale factor of that moment, in an earlier state in which the
    loop was still inside the block. *)
Lemma scaled_before_release acts : forall s d H,
  ScaleLock.fire_all acts ScaleLock.start = Some s ->
  ScaleLock.main s = ScaleLock.Main_after_with d H ->
  exists before after s_in,
    acts = before ++ after /\
    ScaleLock.fire_all before ScaleLock.start = Some s_in /\
    ScaleLock.main s_in = ScaleLock.Main_end_of_with d H /\
    H = ScaleLock.scaled_by (ScaleLock.shared_scale_factor s_in) d.
Proof.
  induction acts as [|a acts IH] using rev_ind; intros s d H F Hm.
  - injection F as <-. discriminate Hm.
  - rewrite fire_all_app in F.
    destruct (ScaleLock.fire_all acts ScaleLock.start) as [s1|] eqn:E1;
      [|discriminate].
    simpl in F.
    destruct (ScaleLock.fire a s1) as [s2|] eqn:E2; [|discriminate].
    injection F as ->.
    destruct (invariant_fire_all acts _ _ invariant_start E1) as [_ P].
    assert (Hcases : (a = ScaleLock.Main_steps /\
                      ScaleLock.main s1 = ScaleLock.Main_end_of_with d H) \/
                     ScaleLock.main s1 = ScaleLock.Main_after_with d H).
    { destruct s1 as [lk k m o].
      destruct a as [| d0 | | parsed]; cbn in E2;
        destruct m as [|d1 H1|d1 H1|d1 H1|d1 H1|d1 H1|d1 H1];
        try discriminate;
        try (destruct lk; try discriminate);
        try (destruct o as [|p|[v|]|r|r]; try discriminate);
        injection E2 as <-; cbn in Hm; try discriminate;
        injection Hm as <- <-; auto. }
    destruct Hcases as [[-> Hend]|Hstay].
    + exists acts, [ScaleLock.Main_steps], s1.
      split; [reflexivity|]. split; [exact E1|]. split; [exact Hend|].
      unfold progress_invariant in P. rewrite Hend in P. exact P.
    + destruct (IH s1 d H eq_refl Hstay) as (before & after & s_in & Ea & Fb & Hi & Hs).
      exists before, (after ++ [a]), s_in.
      split; [rewrite Ea; symmetry; apply app_assoc|].
      split; [exact Fb|]. split; [exact Hi|exact Hs].
Qed.

(** C9.  Whatever the order in which the two threads take their steps:
    the operator's assignment to the scale factor and the read-and-scale
    lines of the acquisition loop are never inside their
    [with frame_mutex] blocks at the same time; while the loop is inside
    its block no step changes the scale factor; at the end of the block
    the transform built for the sample is the one scaled, in all three
    components, by the value the scale factor has under the lock; and the
    transform the loop holds after the block is that same one, scaled by
    the single value [k] the scale factor had while the loop was still
    inside, whatever the operator has assigned since. *)
Theorem scale_read_is_serialized acts s :
  ScaleLock.fire_all acts ScaleLock.start = Some s ->
  ScaleLock.main_in_with s && ScaleLock.operator_in_with s = false /\
  (ScaleLock.main_in_with s = true ->
   forall a s',
     ScaleLock.fire a s = Some s' ->
     ScaleLock.shared_scale_factor s' = ScaleLock.shared_scale_factor s) /\
  (forall d H,
      ScaleLock.main s = ScaleLock.Main_end_of_with d H ->
      H = ScaleLock.scaled_by (ScaleLock.shared_scale_factor s) d) /\
  (forall d H,
      ScaleLock.main s = ScaleLock.Main_after_with d H ->
      exists before after s_in,
        acts = before ++ after /\
        ScaleLock.fire_all before ScaleLock.start = Some s_in /\
        ScaleLock.main s_in = ScaleLock.Main_end_of_with d H /\
        let k := ScaleLock.shared_scale_factor s_in in
        H = ScaleLock.scaled_by k d /\
        translation_from_matrix H =
          (vx (translation d) * k, vy (translation d) * k,
           vz (translation d) * k)).
Proof.
  intros F.
  destruct (invariant_fire_all acts _ _ invariant_start F) as [L P].
  split; [|split; [|split]].
  - unfold lock_invariant in L.
    destruct (ScaleLock.main_in_with s), (ScaleLock.operator_in_with s);
      try reflexivity; contradiction.
  - intros Hin a s' Fa. apply (scale_factor_stable_in_block a s s' L Hin Fa).
  - intros d H E. unfold progress_invariant in P. rewrite E in P. exact P.
  - intros d H E.
    destruct (scaled_before_release acts s d H F E)
      as (before & after & s_in & Ea & Fb & Hi & Hs).
    exists before, after, s_in.
    split; [exact Ea|]. split; [exact Fb|]. split; [exact Hi|].
    cbv zeta. split; [exact Hs|].
    rewrite Hs. unfold ScaleLock.scaled_by.
    destruct (quaternion_matrix _) as [[[[[[a b] c] e] [[[f g] h] i]]
                                        [[[j l] m] n]] [[[o p] q] r]].
    reflexivity.
Qed.

Lemma scale_read_is_serialized_witness :
  ScaleLock.fire_all interleaving_example ScaleLock.start
    = Some interleaving_example_end /\
  ScaleLock.shared_scale_factor interleaving_example_end = 3 /\
  exists before after s_in,
    interleaving_example = before ++ after /\
    ScaleLock.fire_all before ScaleLock.start = Some s_in /\
    ScaleLock.main s_in
      = ScaleLock.Main_end_of_with sample_pose
                                   (ScaleLock.scaled_by 2 sample_pose) /\
    let k := ScaleLock.shared_scale_factor s_in in
    ScaleLock.scaled_by 2 sample_pose = ScaleLock.scaled_by k sample_pose /\
    translation_from_matrix (ScaleLock.scaled_by 2 sample_pose) =
      (1 * k, 2 * k, 3 * k).
Proof.
  assert (F : ScaleLock.fire_all interleaving_example ScaleLock.start
              = Some interleaving_example_end) by reflexivity.
  split; [exact F|]. split; [reflexivity|].
  apply (proj2 (proj2 (proj2 (scale_read_is_serialized
                                interleaving_example
                                interleaving_example_end F)))).
  reflexivity.
Defined.

(* ================================================================== *)
(** * Reasoning about what a computation leaves related *)
(* ================================================================== *)

Section Related.

Context {Rel : state -> state -> Prop} {C : Compatible Rel}.

Lemma related_ret {A : Type} (a : A) : related Rel (ret a).
Proof. intros s. apply rel_refl. Qed.

Lemma related_raise {A : Type} e : related Rel (@raise A e).
Proof. intros s. apply rel_refl. Qed.

Lemma related_get : related Rel get.
Proof. intros s. apply rel_refl. Qed.

Lemma related_modify (f : state -> state) :
  (forall s, Rel s (f s)) -> related Rel (modify f).
Proof. intros Hf s. apply Hf. Qed.

Lemma related_bind {A B : Type} (m : M A) (f : A -> M B) :
  related Rel m -> (forall a, related Rel (f a)) -> related Rel (bind m f).
Proof.
  intros Hm Hf s. unfold bind. specialize (Hm s).
  destruct (m s) as [[e|a] s1]; simpl in *.
  - exact Hm.
  - apply (rel_trans _ _ _ Hm). apply Hf.
Qed.

Lemma related_try_except {A : Type} (m : M A) (h : exn -> M A) :
  related Rel m -> (forall e, related Rel (h e)) ->
  related Rel (try_except m h).
Proof.
  intros Hm Hh s. unfold try_except. specialize (Hm s).
  destruct (m s) as [[e|a] s1]; simpl in *.
  - apply (rel_trans _ _ _ Hm). apply Hh.
  - exact Hm.
Qed.

Lemma related_link_call :
  (forall l s, Rel s (set_link_faults l s)) -> related Rel link_call.
Proof.
  intros Hl s. unfold link_call.
  destruct (link_faults s) as [|[|] rest]; simpl;
    [apply rel_refl|apply Hl|apply Hl].
Qed.

End Related.

Ltac related_step base :=
  first
    [ apply related_bind; [|intros ?]
    | apply related_try_except; [|intros ?]
    | apply related_ret
    | apply related_raise
    | apply related_get
    | apply related_link_call; intros; base
    | apply related_modify; intros; base
    | match goal with
      | |- related _ (match ?x with _ => _ end) => destruct x eqn:?
      end ].

Ltac related_auto base :=
  unfold logging, encode, send_mavlink, flush, pass; cbv zeta;
  repeat related_step base.

#[local] Instance same_navigation_compatible : Compatible same_navigation.
Proof.
  split.
  - intros s. repeat split.
  - unfold same_navigation. intros a b c H1 H2.
    destruct H1 as (?&?&?&?&?&?&?), H2 as (?&?&?&?&?&?&?).
    repeat split; congruence.
Qed.

#[local] Instance same_link_compatible : Compatible same_link.
Proof.
  split.
  - intros s. split; reflexivity.
  - unfold same_link. intros a b c [? ?] [? ?]. split; congruence.
Qed.

#[local] Instance same_target_compatible : Compatible same_target.
Proof.
  split.
  - intros s. split; reflexivity.
  - unfold same_target. intros a b c [? ?] [? ?]. split; congruence.
Qed.

#[local] Instance keeps_compatible (P : state -> Prop) : Compatible (keeps P).
Proof.
  split.
  - intros s H. exact H.
  - intros a b c H1 H2 H. apply H2, H1, H.
Qed.

(* ================================================================== *)
(** * No link failure escapes a sender *)
(* ================================================================== *)

Lemma returns_ret {A : Type} (a : A) : returns (ret a).
Proof. intros s. exists a, s. reflexivity. Qed.

Lemma returns_get : returns get.
Proof. intros s. exists s, s. reflexivity. Qed.

Lemma returns_modify (f : state -> state) : returns (modify f).
Proof. intros s. exists tt, (f s). reflexivity. Qed.

Lemma returns_logging lvl t : returns (logging lvl t).
Proof. apply returns_modify. Qed.

Lemma returns_bind {A B : Type} (m : M A) (f : A -> M B) :
  returns m -> (forall a, returns (f a)) -> returns (bind m f).
Proof.
  intros Hm Hf s. destruct (Hm s) as (a & s1 & E).
  rewrite (bind_inr _ _ _ _ _ E). apply Hf.
Qed.

(** A [try] whose handler ends normally ends normally, whatever its body
    does. *)
Lemma returns_try_except {A : Type} (m : M A) (h : exn -> M A) :
  (forall e, returns (h e)) -> returns (try_except m h).
Proof.
  intros Hh s. unfold try_except.
  destruct (m s) as [[e|a] s1].
  - apply Hh.
  - exists a, s1. reflexivity.
Qed.

Ltac returns_step :=
  first
    [ apply returns_try_except; intros ?
    | apply returns_bind; [|intros ?]
    | apply returns_ret
    | apply returns_get
    | apply returns_modify
    | apply returns_logging
    | match goal with
      | |- returns (match ?x with _ => _ end) => destruct x
      end ].

Ltac returns_auto := unfold pass; cbv zeta; repeat returns_step.

Lemma returns_send_land_target_message : returns send_land_target_message.
Proof. unfold send_land_target_message. returns_auto. Qed.

Lemma returns_send_vision_position_message :
  returns send_vision_position_message.
Proof. unfold send_vision_position_message. returns_auto. Qed.

Lemma returns_send_confidence_level_dummy_message :
  returns send_confidence_level_dummy_message.
Proof. unfold send_confidence_level_dummy_message. returns_auto. Qed.

Lemma returns_statustext_callback text : returns (statustext_callback text).
Proof.
  unfold statustext_callback, set_default_global_origin,
    set_default_home_position.
  returns_auto.
Qed.

(** X1.  Whatever the link does (any of its calls may raise), a tick of
    each of the three scheduler tasks and the STATUSTEXT callback returns
    normally: every call on the vehicle sits inside a [try], so no link
    failure escapes into the scheduler or the listener. *)
Theorem senders_never_raise s :
  (exists s', send_vision_position_message s = (inr tt, s')) /\
  (exists s', send_confidence_level_dummy_message s = (inr tt, s')) /\
  (exists s', send_land_target_message s = (inr tt, s')) /\
  (forall text, exists s', statustext_callback text s = (inr tt, s')).
Proof.
  split; [|split; [|split]].
  - destruct (returns_send_vision_position_message s) as ([] & s' & E).
    exists s'. exact E.
  - destruct (returns_send_confidence_level_dummy_message s)
      as ([] & s' & E).
    exists s'. exact E.
  - destruct (returns_send_land_target_message s) as ([] & s' & E).
    exists s'. exact E.
  - intros text.
    destruct (returns_statustext_callback text s) as ([] & s' & E).
    exists s'. exact E.
Qed.

(* ================================================================== *)
(** * What each part of the program leaves alone *)
(* ================================================================== *)

Section RelatedLoops.

Context {Rel : state -> state -> Prop} {C : Compatible Rel}.

Lemma related_for_tag_in cfg tags :
  (forall t, related Rel (handle_tag cfg t)) ->
  related Rel (for_tag_in cfg tags).
Proof.
  intros Ht. induction tags as [|t tags IH]; simpl.
  - apply related_ret.
  - apply related_bind; [apply Ht|intros _; exact IH].
Qed.

Lemma related_iteration cfg mt f :
  (forall l s, Rel s (set_log l s)) ->
  (forall s, Rel s (set_is_landing_tag_detected false s)) ->
  (forall time_us d, related Rel (process_pose cfg mt time_us d)) ->
  (forall t, related Rel (handle_tag cfg t)) ->
  related Rel (iteration cfg mt f).
Proof.
  intros Hl Hc Hp Ht. unfold iteration, handle_tags, logging.
  destruct (wait_for_frames_raises f);
    [apply related_modify; intros; apply Hl|].
  apply related_bind.
  - destruct (pose_frame f) as [[time_us d]|];
      [apply Hp|apply related_ret].
  - intros _.
    destruct (fisheye_raises f); [apply related_modify; intros; apply Hl|].
    destruct (remap_raises f); [apply related_modify; intros; apply Hl|].
    destruct (detection f) as [[|t tags]|].
    + apply related_modify. exact Hc.
    + apply related_for_tag_in. exact Ht.
    + apply related_modify; intros; apply Hl.
Qed.

Lemma related_run cfg mt es :
  (forall e, related Rel (react cfg mt e)) -> related Rel (run cfg mt es).
Proof.
  intros He. induction es as [|e es IH]; simpl.
  - apply related_ret.
  - apply related_bind; [apply He|intros _; exact IH].
Qed.

End RelatedLoops.

Ltac unfold_handlers :=
  unfold send_land_target_message, send_vision_position_message,
    send_confidence_level_dummy_message, statustext_callback,
    set_default_global_origin, set_default_home_position,
    att_msg_callback, scale_update_round, process_pose, handle_tag.

Ltac fields_base := solve [ cbn; repeat split; reflexivity ].

(** X3.  The three scheduler tasks and the STATUSTEXT callback only use the
    link (and the confidence task its edge state): the timestamp, the pose
    sample, the navigation pose, the landing-target geometry and flag, the
    heading reference and the scale factor are the same after them as
    before, whether or not the link fails. *)
Theorem senders_keep_navigation_state s :
  same_navigation s (snd (send_vision_position_message s)) /\
  same_navigation s (snd (send_confidence_level_dummy_message s)) /\
  same_navigation s (snd (send_land_target_message s)) /\
  forall text, same_navigation s (snd (statustext_callback text s)).
Proof.
  split; [|split; [|split]]; try intros text;
    match goal with
    | |- same_navigation s (snd (?m s)) =>
        revert s; change (related same_navigation m)
    end;
    unfold_handlers; related_auto fields_base.
Qed.

(** X4.  The acquisition loop, the ATTITUDE callback and the operator's
    input never use the link: after them the outbox and the schedule of
    link failures are what they were. *)
Theorem loop_and_callbacks_keep_link cfg mt s :
  (forall f, same_link s (snd (iteration cfg mt f s))) /\
  (forall yaw, same_link s (snd (att_msg_callback yaw s))) /\
  (forall parsed, same_link s (snd (scale_update_round parsed s))).
Proof.
  split; [|split]; intros x;
    match goal with
    | |- same_link s (snd (?m s)) => revert s; change (related same_link m)
    end.
  - apply related_iteration; intros;
      try (unfold_handlers; related_auto fields_base); fields_base.
  - unfold_handlers. related_auto fields_base.
  - unfold_handlers. related_auto fields_base.
Qed.

#[local] Instance same_on_compatible {X : Type} (f : state -> X) :
  Compatible (same_on f).
Proof.
  split.
  - intros s. reflexivity.
  - unfold same_on. intros a b c H1 H2. congruence.
Qed.

Ltac same_on_base := solve [ cbn; reflexivity ].

(* ================================================================== *)
(** * Invariants of the running process *)
(* ================================================================== *)

Lemma scale_kept_react cfg mt e :
  scale_calib_enable cfg = false ->
  related (same_on scale_factor) (react cfg mt e).
Proof.
  intros Hc. destruct e; simpl.
  - apply related_iteration; intros;
      try (unfold_handlers; related_auto same_on_base); same_on_base.
  - unfold_handlers. related_auto same_on_base.
  - unfold_handlers. related_auto same_on_base.
  - unfold_handlers. related_auto same_on_base.
  - unfold_handlers. related_auto same_on_base.
  - destruct (compass_enabled cfg =? 1)%Z;
      unfold_handlers; related_auto same_on_base.
  - rewrite Hc. apply related_ret.
Qed.

(** X5.  Outside calibration mode nothing writes the scale factor: in every
    state the process can reach it is the 1.0 of the script. *)
Theorem scale_factor_fixed_without_calibration cfg s :
  reachable cfg s ->
  scale_calib_enable cfg = false ->
  scale_factor s = 1.
Proof.
  intros (mt & faults & es & r & _ & R) Hc.
  pose proof (related_run cfg mt es (fun e => scale_kept_react cfg mt e Hc)
                          (initial_state faults)) as K.
  rewrite R in K. exact K.
Qed.



Lemma same_target_keeps_present (m : M unit) :
  related same_target m -> related (keeps target_present) m.
Proof.
  intros Hm s Hp. destruct (Hm s) as [Hh Hf].
  unfold target_present. rewrite Hh, Hf. exact Hp.
Qed.

Lemma target_present_handle_tags cfg tags :
  related (keeps target_present) (handle_tags cfg tags).
Proof.
  intros s Hp. destruct tags as [|t tags].
  - intros Hf. discriminate Hf.
  - unfold handle_tags.
    destruct (for_tag_in_effect cfg (t :: tags) s) as (s' & R & E).
    rewrite R. simpl snd.
    destruct (last_matching cfg (t :: tags)) as [u|].
    + destruct E as [_ E]. intros _. unfold tag_transform in E.
      destruct (pose_t u) as [[x y] z]. exists x, y, z. exact E.
    + subst s'. exact Hp.
Qed.

Lemma target_present_react cfg mt e :
  related (keeps target_present) (react cfg mt e).
Proof.
  destruct e; simpl.
  - unfold iteration, logging.
    destruct (wait_for_frames_raises f).
    { apply same_target_keeps_present. related_auto fields_base. }
    apply related_bind.
    + apply same_target_keeps_present.
      destruct (pose_frame f) as [[time_us d]|];
        unfold_handlers; related_auto fields_base.
    + intros _.
      destruct (fisheye_raises f).
      { apply same_target_keeps_present. related_auto fields_base. }
      destruct (remap_raises f).
      { apply same_target_keeps_present. related_auto fields_base. }
      destruct (detection f) as [tags|].
      * apply target_present_handle_tags.
      * apply same_target_keeps_present. related_auto fields_base.
  - apply same_target_keeps_present. unfold_handlers.
    related_auto fields_base.
  - apply same_target_keeps_present. unfold_handlers.
    related_auto fields_base.
  - apply same_target_keeps_present. unfold_handlers.
    related_auto fields_base.
  - apply same_target_keeps_present. unfold_handlers.
    related_auto fields_base.
  - apply same_target_keeps_present.
    destruct (compass_enabled cfg =? 1)%Z;
      unfold_handlers; related_auto fields_base.
  - apply same_target_keeps_present.
    destruct (scale_calib_enable cfg);
      unfold_handlers; related_auto fields_base.
Qed.

(** X7.  Between events the flag is never set without a geometry: in every
    state the process can reach with [is_landing_tag_detected] set,
    [H_camera_tag] holds a matrix, and that matrix is a pure translation
    (identity rotation). *)
Theorem detected_flag_has_geometry cfg s :
  reachable cfg s ->
  is_landing_tag_detected s = true ->
  exists x y z, H_camera_tag s = Some (translation_matrix x y z).
Proof.
  intros (mt & faults & es & r & _ & R).
  pose proof (related_run cfg mt es (target_present_react cfg mt)
                          (initial_state faults)) as K.
  rewrite R in K. apply K. intros Hf. discriminate Hf.
Qed.

(* ================================================================== *)
(** * The navigation pose stays a rigid transform *)
(* ================================================================== *)

Ltac destruct_mat m :=
  let a := fresh m "00" in let b := fresh m "01" in
  let c := fresh m "02" in let d := fresh m "03" in
  let e := fresh m "10" in let f := fresh m "11" in
  let g := fresh m "12" in let h := fresh m "13" in
  let i := fresh m "20" in let j := fresh m "21" in
  let k := fresh m "22" in let l := fresh m "23" in
  let n := fresh m "30" in let o := fresh m "31" in
  let p := fresh m "32" in let q := fresh m "33" in
  destruct m as [[[[[[a b] c] d] [[[e f] g] h]] [[[i j] k] l]]
                   [[[n o] p] q]].

Lemma transpose_mmul a b :
  transpose (mmul a b) = mmul (transpose b) (transpose a).
Proof.
  destruct_mat a. destruct_mat b.
  unfold transpose, mmul, mbuild. cbn. tuple_eq; ring.
Qed.

Lemma mmul_identity_r a : mmul a identity4 = a.
Proof.
  destruct_mat a. unfold mmul, mbuild, identity4. cbn. tuple_eq; ring.
Qed.

Lemma rotation_part_mmul a b :
  mrow a 3 = (0, 0, 0, 1) -> mrow b 3 = (0, 0, 0, 1) ->
  rotation_part (mmul a b) = mmul (rotation_part a) (rotation_part b).
Proof.
  destruct_mat a. destruct_mat b. cbn. intros Ha Hb.
  injection Ha as -> -> -> ->. injection Hb as -> -> -> ->.
  unfold rotation_part, mmul, mbuild. cbn. tuple_eq; ring.
Qed.

Lemma bottom_row_mmul a b :
  mrow a 3 = (0, 0, 0, 1) -> mrow b 3 = (0, 0, 0, 1) ->
  mrow (mmul a b) 3 = (0, 0, 0, 1).
Proof.
  destruct_mat a. destruct_mat b. cbn. intros Ha Hb.
  injection Ha as -> -> -> ->. injection Hb as -> -> -> ->.
  tuple_eq; ring.
Qed.

(** Rigid transforms compose to rigid transforms. *)
Lemma is_rigid_mmul a b : is_rigid a -> is_rigid b -> is_rigid (mmul a b).
Proof.
  intros [Oa Ra] [Ob Rb]. split.
  - rewrite (rotation_part_mmul a b Ra Rb), transpose_mmul.
    rewrite mmul_assoc.
    rewrite <- (mmul_assoc (rotation_part b)).
    rewrite Ob.
    rewrite <- mmul_assoc, mmul_identity_r. exact Oa.
  - apply bottom_row_mmul; assumption.
Qed.

Lemma is_rigid_identity4 : is_rigid identity4.
Proof.
  split; [|reflexivity].
  unfold rotation_part, transpose, mmul, mbuild, identity4. cbn.
  tuple_eq; ring.
Qed.

Lemma is_rigid_translation_matrix x y z : is_rigid (translation_matrix x y z).
Proof.
  split; [|reflexivity].
  unfold rotation_part, transpose, mmul, mbuild, identity4. cbn.
  tuple_eq; ring.
Qed.

Lemma is_rigid_yaw_rotation yaw : is_rigid (yaw_rotation yaw).
Proof.
  split; [|reflexivity].
  pose proof (sin2_cos2 yaw) as H. unfold Rsqr in H.
  unfold rotation_part, transpose, mmul, mbuild, identity4. cbn.
  tuple_eq; try ring.
  - rewrite <- H. ring.
  - rewrite <- H. ring.
Qed.

Lemma is_rigid_rigid rot x y z : is_rigid rot -> is_rigid (rigid rot x y z).
Proof.
  intros [O _]. split; [|reflexivity]. exact O.
Qed.

Lemma _EPS_positive : 0 < _EPS.
Proof.
  unfold _EPS. apply Rdiv_lt_0_compat; [lra|]. apply pow_lt. lra.
Qed.

Lemma unit_quaternion_orthonormal a b c d :
  a * a + b * b + c * c + d * d = 2 ->
  let m := ((1 - c * c - d * d, b * c - d * a, b * d + c * a, 0),
            (b * c + d * a, 1 - b * b - d * d, c * d - b * a, 0),
            (b * d - c * a, c * d + b * a, 1 - b * b - c * c, 0),
            (0, 0, 0, 1)) in
  mmul (rotation_part m) (transpose (rotation_part m)) = identity4.
Proof.
  intros H m. unfold m, rotation_part, transpose, mmul, mbuild, identity4.
  cbn. tuple_eq; try ring; nsatz.
Qed.

Lemma is_rigid_quaternion_matrix q : is_rigid (quaternion_matrix q).
Proof.
  unfold quaternion_matrix. destruct q as [[[w x] y] z].
  destruct (Rlt_dec _ _) as [Hs|Hn].
  - apply is_rigid_identity4.
  - split; [|reflexivity].
    set (n := w * w + x * x + y * y + z * z) in *.
    assert (Hn0 : 0 < n).
    { pose proof _EPS_positive. lra. }
    set (k := sqrt (2 / n)).
    assert (Hk : k * k = 2 / n).
    { apply sqrt_sqrt. apply Rlt_le. apply Rdiv_lt_0_compat; lra. }
    unfold outer. cbn.
    apply (unit_quaternion_orthonormal (w * k) (x * k) (y * k) (z * k)).
    replace (w * k * (w * k) + x * k * (x * k) + y * k * (y * k)
             + z * k * (z * k)) with (n * (k * k)) by (unfold n; ring).
    rewrite Hk. field. lra.
Qed.

Lemma det4_mount : det4 H_aeroRef_T265Ref_const = 1.
Proof. unfold det4, cofactor, det3. cbn. ring. Qed.

(** The body transform of the forward-facing camera, as the inverse gives
    it. *)
Lemma inv_mount :
  inv H_aeroRef_T265Ref_const =
  Some ((0, 1, 0, 0), (0, 0, -1, 0), (-1, 0, 0, 0), (0, 0, 0, 1)).
Proof.
  unfold inv. cbv zeta. rewrite det4_mount.
  destruct (Req_dec_T 1 0) as [E|_]; [lra|].
  f_equal. unfold mbuild, cofactor, det3, H_aeroRef_T265Ref_const. cbn.
  tuple_eq; field.
Qed.

Lemma select_mounts_forward :
  select_mounts 0 =
  Some (mkMounts H_aeroRef_T265Ref_const
                 ((0, 1, 0, 0), (0, 0, -1, 0), (-1, 0, 0, 0), (0, 0, 0, 1))).
Proof. unfold select_mounts. simpl. rewrite inv_mount. reflexivity. Qed.

Lemma select_mounts_cases o mt :
  select_mounts o = Some mt ->
  (o = 0%Z /\
   mt = mkMounts H_aeroRef_T265Ref_const
                 ((0, 1, 0, 0), (0, 0, -1, 0), (-1, 0, 0, 0), (0, 0, 0, 1)))
  \/ (o = 1%Z /\ mt = downward_mounts).
Proof.
  unfold select_mounts.
  destruct (o =? 0)%Z eqn:E0.
  - apply Z.eqb_eq in E0. subst o. rewrite inv_mount. intros H.
    injection H as <-. left. split; reflexivity.
  - destruct (o =? 1)%Z eqn:E1; [|discriminate].
    apply Z.eqb_eq in E1. subst o. intros H. injection H as <-.
    right. split; reflexivity.
Qed.

(** X8.  Start-up accepts exactly the camera orientations 0 and 1: for
    these the mount transforms exist, for every other value there are none
    (the script logs an error and exits). *)
Theorem select_mounts_supported o :
  (exists mt, select_mounts o = Some mt) <-> (o = 0%Z \/ o = 1%Z).
Proof.
  split.
  - intros [mt H]. destruct (select_mounts_cases o mt H) as [[E _]|[E _]];
      [left|right]; exact E.
  - intros [E|E]; subst o.
    + eexists. apply select_mounts_forward.
    + exists downward_mounts. reflexivity.
Qed.

Ltac rigid_by_ring :=
  split; [|reflexivity];
  unfold rotation_part, transpose, mmul, mbuild, identity4; cbn;
  tuple_eq; ring.

Lemma select_mounts_rigid o mt :
  select_mounts o = Some mt ->
  is_rigid (H_aeroRef_T265Ref mt) /\ is_rigid (H_T265body_aeroBody mt).
Proof.
  intros H. destruct (select_mounts_cases o mt H) as [[_ E]|[_ E]]; subst mt;
    split; rigid_by_ring.
Qed.

Lemma is_rigid_spec_nav_pose cfg mt k heading d :
  is_rigid (H_aeroRef_T265Ref mt) -> is_rigid (H_T265body_aeroBody mt) ->
  is_rigid (spec_nav_pose cfg mt k heading d).
Proof.
  intros Ha Hb. unfold spec_nav_pose, spec_sensor_local. cbv zeta.
  assert (Hn : is_rigid
                 (mmul (mmul (H_aeroRef_T265Ref mt)
                             (rigid (quaternion_matrix
                                       (qw (rotation d), qx (rotation d),
                                        qy (rotation d), qz (rotation d)))
                                    (vx (translation d) * k)
                                    (vy (translation d) * k)
                                    (vz (translation d) * k)))
                       (H_T265body_aeroBody mt))).
  { apply is_rigid_mmul; [apply is_rigid_mmul|]; try assumption.
    apply is_rigid_rigid, is_rigid_quaternion_matrix. }
  destruct (body_offset_enabled cfg =? 1)%Z; destruct heading as [yaw|];
    repeat first [ exact Hn
                 | apply is_rigid_translation_matrix
                 | apply is_rigid_yaw_rotation
                 | apply is_rigid_mmul ].
Qed.

(** X9.  For both camera orientations and every pose sample, whatever its
    quaternion (a degenerate one is read as no rotation), the scale factor,
    the body offset and the heading, the navigation pose stored by the loop
    is a rigid transform: its rotation block is orthonormal and its bottom
    row is (0, 0, 0, 1). *)
Theorem nav_pose_is_rigid cfg mt time_us d s :
  select_mounts (camera_orientation cfg) = Some mt ->
  exists s' H,
    process_pose cfg mt time_us d s = (inr tt, s') /\
    H_aeroRef_aeroBody s' = Some H /\
    is_rigid H.
Proof.
  intros Hm. destruct (select_mounts_rigid _ _ Hm) as [Ha Hb].
  destruct (process_pose_result cfg mt time_us d s) as (s' & R & Hn & _).
  exists s'. eexists. split; [exact R|]. split; [exact Hn|].
  apply is_rigid_spec_nav_pose; assumption.
Qed.

(** Multiplying on the right by a transform without translation leaves the
    position alone. *)
Lemma translation_mmul_no_translation a b :
  mget b 0 3 = 0 -> mget b 1 3 = 0 -> mget b 2 3 = 0 -> mget b 3 3 = 1 ->
  translation_from_matrix (mmul a b) = translation_from_matrix a.
Proof.
  destruct_mat a. destruct_mat b. unfold translation_from_matrix. cbn.
  intros -> -> -> ->. tuple_eq; ring.
Qed.

Lemma translation_mount_rigid rot x y z :
  translation_from_matrix (mmul H_aeroRef_T265Ref_const (rigid rot x y z)) =
  (- z, x, - y).
Proof.
  destruct_mat rot. unfold translation_from_matrix. cbn. tuple_eq; ring.
Qed.

Lemma spec_nav_pose_position cfg mt k heading d :
  select_mounts (camera_orientation cfg) = Some mt ->
  (body_offset_enabled cfg =? 1)%Z = false ->
  translation_from_matrix (spec_nav_pose cfg mt k heading d) =
  (- (vz (translation d) * k), vx (translation d) * k,
   - (vy (translation d) * k)).
Proof.
  intros Hm Ho. unfold spec_nav_pose, spec_sensor_local. cbv zeta.
  rewrite Ho.
  assert (Hb : translation_from_matrix
                 (mmul (mmul (H_aeroRef_T265Ref mt)
                             (rigid (quaternion_matrix
                                       (qw (rotation d), qx (rotation d),
                                        qy (rotation d), qz (rotation d)))
                                    (vx (translation d) * k)
                                    (vy (translation d) * k)
                                    (vz (translation d) * k)))
                       (H_T265body_aeroBody mt)) =
               (- (vz (translation d) * k), vx (translation d) * k,
                - (vy (translation d) * k))).
  { destruct (select_mounts_cases _ _ Hm) as [[_ E]|[_ E]]; subst mt;
      (rewrite translation_mmul_no_translation by reflexivity);
      apply translation_mount_rigid. }
  destruct heading as [yaw|]; [|exact Hb].
  rewrite translation_mmul_no_translation by reflexivity. exact Hb.
Qed.

(** X10.  Without the body offset, for both camera orientations, the
    position of the navigation pose is the sensor's translation (x, y, z)
    times the scale factor, with the axes changed to (-z, x, -y): the
    sensor's rotation and the heading reference do not enter it. *)
Theorem nav_position_is_scaled_sensor_position cfg mt time_us d s :
  select_mounts (camera_orientation cfg) = Some mt ->
  body_offset_enabled cfg <> 1%Z ->
  exists s' H,
    process_pose cfg mt time_us d s = (inr tt, s') /\
    H_aeroRef_aeroBody s' = Some H /\
    translation_from_matrix H =
      (- (vz (translation d) * scale_factor s),
       vx (translation d) * scale_factor s,
       - (vy (translation d) * scale_factor s)).
Proof.
  intros Hm Ho. apply Z.eqb_neq in Ho.
  destruct (process_pose_result cfg mt time_us d s) as (s' & R & Hn & _).
  exists s'. eexists. split; [exact R|]. split; [exact Hn|].
  apply spec_nav_pose_position; assumption.
Qed.

(* ================================================================== *)
(** * From the camera to the messages *)
(* ================================================================== *)

#[local] Instance same_pose_and_link_compatible :
  Compatible same_pose_and_link.
Proof.
  split.
  - intros s. repeat split.
  - unfold same_pose_and_link. intros a b c (?&?&?&?) (?&?&?&?).
    repeat split; congruence.
Qed.

(** What a tick of the pose sender sends while the link takes the message. *)
Lemma vision_tick s H :
  H_aeroRef_aeroBody s = Some H ->
  next_calls_succeed 2 s = true ->
  exists s',
    send_vision_position_message s = (inr tt, s') /\
    outbox s' =
      outbox s
      ++ [let '(roll, pitch, yaw) := euler_from_matrix H in
          let '(px, py, pz) := translation_from_matrix H in
          VISION_POSITION_ESTIMATE (current_time s) px py pz roll pitch yaw].
Proof.
  intros Hh Hf. apply next_two_calls_succeed in Hf.
  unfold send_vision_position_message. unfold bind at 1. unfold get at 1.
  rewrite Hh.
  destruct (euler_from_matrix H) as [[roll pitch] yaw].
  destruct (translation_from_matrix H) as [[px py] pz].
  clear Hh H.
  destruct s as [ct dt cc Ha Hc fl hy sf ob lf lg]. cbn in Hf.
  destruct Hf as [Hf|[Hf|[rest Hf]]]; subst lf;
    unfold_prog; cbn; split_faults;
    eexists; (split; [reflexivity|]); reflexivity.
Qed.

(** What a tick of the landing-target sender sends while the link takes the
    message. *)
Lemma land_target_tick s :
  next_calls_succeed 2 s = true ->
  exists s',
    send_land_target_message s = (inr tt, s') /\
    outbox s' =
      outbox s
      ++ match is_landing_tag_detected s, H_camera_tag s with
         | true, Some H =>
             if Req_dec_T (mget H 2 3) 0 then []
             else [LANDING_TARGET
                     (current_time s) 0 MAV_FRAME_BODY_NED
                     (atan2 (mget H 0 3) (mget H 2 3))
                     (atan2 (mget H 1 3) (mget H 2 3))
                     (sqrt (mget H 0 3 * mget H 0 3 + mget H 1 3 * mget H 1 3
                            + mget H 2 3 * mget H 2 3))
                     0 0 0 0 0 (1, 0, 0, 0) 2 1]
         | _, _ => []
         end.
Proof.
  intros Hf. apply next_two_calls_succeed in Hf.
  unfold send_land_target_message. unfold bind at 1. unfold get at 1.
  destruct (is_landing_tag_detected s) eqn:Ed;
    [|exists s; split; [reflexivity|symmetry; apply app_nil_r]].
  destruct (H_camera_tag s) as [H|] eqn:Eh;
    [|exists s; split; [reflexivity|symmetry; apply app_nil_r]].
  destruct (Req_dec_T (mget H 2 3) 0) as [Ez|Ez].
  { eexists. split; [reflexivity|]. cbn. symmetry. apply app_nil_r. }
  generalize (atan2 (mget H 0 3) (mget H 2 3))
             (atan2 (mget H 1 3) (mget H 2 3))
             (sqrt (mget H 0 3 * mget H 0 3 + mget H 1 3 * mget H 1 3
                    + mget H 2 3 * mget H 2 3)).
  intros bx by_ rng. clear Ed Eh Ez H.
  destruct s as [ct dt cc Ha Hc fl hy sf ob lf lg]. cbn in Hf.
  destruct Hf as [Hf|[Hf|[rest Hf]]]; subst lf;
    unfold_prog; cbn; split_faults;
    eexists; (split; [reflexivity|]); reflexivity.
Qed.

Ltac pose_link_base := solve [ cbn; repeat split; reflexivity ].

Lemma handle_tags_keeps_pose_and_link cfg tags :
  related same_pose_and_link (handle_tags cfg tags).
Proof.
  unfold handle_tags. destruct tags as [|t tags].
  - related_auto pose_link_base.
  - apply related_for_tag_in. intros u. unfold_handlers.
    related_auto pose_link_base.
Qed.

(** An iteration that gets its frames and a pose: the pose is handled, and
    what follows (images, detection) leaves the published pose and the link
    as they are, whether or not it fails. *)
Lemma iteration_with_pose cfg mt f time_us d s :
  wait_for_frames_raises f = false ->
  pose_frame f = Some (time_us, d) ->
  exists s1 s',
    process_pose cfg mt time_us d s = (inr tt, s1) /\
    iteration cfg mt f s = (inr tt, s') /\
    same_pose_and_link s1 s' /\
    (forall tags,
        fisheye_raises f = false -> remap_raises f = false ->
        detection f = Some tags ->
        handle_tags cfg tags s1 = (inr tt, s')).
Proof.
  intros Hw Hp.
  destruct (process_pose_result cfg mt time_us d s) as (s1 & R & _).
  exists s1. unfold iteration. rewrite Hw, Hp.
  rewrite (bind_inr _ _ _ _ _ R).
  destruct (fisheye_raises f).
  { eexists. split; [exact R|]. split; [reflexivity|].
    split; [pose_link_base|]. intros; discriminate. }
  destruct (remap_raises f).
  { eexists. split; [exact R|]. split; [reflexivity|].
    split; [pose_link_base|]. intros; discriminate. }
  destruct (detection f) as [tags|].
  - pose proof (handle_tags_keeps_pose_and_link cfg tags s1) as K.
    assert (Hr : exists s', handle_tags cfg tags s1 = (inr tt, s')).
    { destruct tags as [|t tags].
      - eexists. reflexivity.
      - destruct (for_tag_in_effect cfg (t :: tags) s1) as (s' & E & _).
        exists s'. exact E. }
    destruct Hr as [s' E]. rewrite E in K. exists s'.
    split; [exact R|]. split; [exact E|]. split; [exact K|].
    intros tags' _ _ Ht. injection Ht as <-. exact E.
  - eexists. split; [exact R|]. split; [reflexivity|].
    split; [pose_link_base|]. intros; discriminate.
Qed.

Lemma process_pose_keeps_link cfg mt time_us d :
  related same_link (process_pose cfg mt time_us d).
Proof. unfold_handlers. related_auto fields_base. Qed.

Lemma next_calls_succeed_same n s s' :
  link_faults s' = link_faults s ->
  next_calls_succeed n s' = next_calls_succeed n s.
Proof. intros E. unfold next_calls_succeed. rewrite E. reflexivity. Qed.

(** X11.  End to end for the pose: after an iteration that got a pose
    sample at time t, whatever became of its images and its detection, the
    next tick of the pose sender (the link taking the message) sends one
    VISION_POSITION_ESTIMATE stamped t; without the body offset its
    position is the sample's (x, y, z) times the scale factor with the axes
    changed to (-z, x, -y). *)
Theorem pose_sample_reaches_the_autopilot cfg mt f time_us d s :
  select_mounts (camera_orientation cfg) = Some mt ->
  body_offset_enabled cfg <> 1%Z ->
  wait_for_frames_raises f = false ->
  pose_frame f = Some (time_us, d) ->
  next_calls_succeed 2 s = true ->
  exists s' roll pitch yaw,
    (iteration cfg mt f ;; send_vision_position_message) s = (inr tt, s') /\
    outbox s' =
      outbox s
      ++ [VISION_POSITION_ESTIMATE
            time_us
            (- (vz (translation d) * scale_factor s))
            (vx (translation d) * scale_factor s)
            (- (vy (translation d) * scale_factor s))
            roll pitch yaw].
Proof.
  intros Hm Ho Hw Hp Hf. apply Z.eqb_neq in Ho.
  destruct (iteration_with_pose cfg mt f time_us d s Hw Hp)
    as (s1 & s2 & R1 & R2 & (Kt & Kh & Ko & Kl) & _).
  destruct (process_pose_result cfg mt time_us d s) as (s1' & R1' & Hn & _ & Ht).
  rewrite R1 in R1'. injection R1' as <-.
  destruct (process_pose_keeps_link cfg mt time_us d s) as [Lo Ll].
  rewrite R1 in Lo, Ll. simpl in Lo, Ll.
  rewrite (bind_inr _ _ _ _ _ R2).
  assert (Hf2 : next_calls_succeed 2 s2 = true).
  { rewrite (next_calls_succeed_same 2 s s2); [exact Hf|congruence]. }
  rewrite <- Kh in Hn.
  destruct (vision_tick s2 _ Hn Hf2) as (s' & R & O).
  rewrite (spec_nav_pose_position cfg mt _ _ d Hm Ho) in O.
  destruct (euler_from_matrix _) as [[roll pitch] yaw].
  exists s', roll, pitch, yaw. split; [exact R|].
  rewrite O, Ko, Lo, Kt, Ht. reflexivity.
Qed.

(** X12.  End to end for the landing target: after an iteration whose
    detector returned tags of the landing identifier, the last of them at
    (x, y, z) with z not zero, the next tick of the landing-target sender
    (the link taking the message) sends one LANDING_TARGET with
    atan2(x, z), atan2(y, z) and sqrt(x*x + y*y + z*z), stamped with the
    time of the iteration's pose frame, or with the time of an earlier one
    when the iteration had none. *)
Theorem detection_reaches_the_autopilot cfg mt f tags t s :
  wait_for_frames_raises f = false ->
  fisheye_raises f = false ->
  remap_raises f = false ->
  detection f = Some tags ->
  last_matching cfg tags = Some t ->
  snd (pose_t t) <> 0 ->
  next_calls_succeed 2 s = true ->
  let x := fst (fst (pose_t t)) in
  let y := snd (fst (pose_t t)) in
  let z := snd (pose_t t) in
  exists s',
    (iteration cfg mt f ;; send_land_target_message) s = (inr tt, s') /\
    outbox s' =
      outbox s
      ++ [LANDING_TARGET
            match pose_frame f with
            | Some (time_us, _) => time_us
            | None => current_time s
            end
            0 MAV_FRAME_BODY_NED
            (atan2 x z) (atan2 y z) (sqrt (x * x + y * y + z * z))
            0 0 0 0 0 (1, 0, 0, 0) 2 1].
Proof.
  intros Hw Hfi Hre Hd Hl Hz Hf x y z.
  assert (Hpose : exists s1,
             match pose_frame f with
             | Some (time_us, d) => process_pose cfg mt time_us d
             | None => pass
             end s = (inr tt, s1) /\
             current_time s1 = match pose_frame f with
                               | Some (time_us, _) => time_us
                               | None => current_time s
                               end /\
             outbox s1 = outbox s /\ link_faults s1 = link_faults s).
  { destruct (pose_frame f) as [[time_us d]|].
    - destruct (process_pose_result cfg mt time_us d s)
        as (s1 & R & _ & _ & Ht).
      destruct (process_pose_keeps_link cfg mt time_us d s) as [Lo Ll].
      rewrite R in Lo, Ll. exists s1. repeat split; assumption.
    - exists s. repeat split. }
  destruct Hpose as (s1 & R1 & Ht & Ho & Hlf).
  destruct tags as [|t0 tags]; [discriminate|].
  destruct (for_tag_in_effect cfg (t0 :: tags) s1) as (s2 & R2 & E).
  rewrite Hl in E. destruct E as [Efl Eh].
  pose proof (handle_tags_keeps_pose_and_link cfg (t0 :: tags) s1) as K.
  unfold handle_tags in K. rewrite R2 in K.
  destruct K as (Kt & _ & Ko & Kl). simpl in Kt, Ko, Kl.
  assert (Hit : iteration cfg mt f s = (inr tt, s2)).
  { unfold iteration. rewrite Hw. rewrite (bind_inr _ _ _ _ _ R1).
    rewrite Hfi, Hre, Hd. exact R2. }
  rewrite (bind_inr _ _ _ _ _ Hit).
  assert (Hf2 : next_calls_succeed 2 s2 = true).
  { rewrite (next_calls_succeed_same 2 s s2); [exact Hf|congruence]. }
  destruct (land_target_tick s2 Hf2) as (s' & R & O).
  exists s'. split; [exact R|].
  rewrite O, Efl, Eh, Ko, Ho, Kt, Ht.
  unfold tag_transform, x, y, z in *.
  destruct (pose_t t) as [[tx ty] tz]. cbn in *.
  destruct (Req_dec_T tz 0) as [E0|_]; [contradiction|]. reflexivity.
Qed.

(** X13.  When the detector returns no tag at all, the following tick of
    the landing-target sender sends nothing and makes no call on the link,
    whatever was detected before and whatever the link would do. *)
Theorem empty_detection_stops_the_reports cfg mt f s :
  wait_for_frames_raises f = false ->
  fisheye_raises f = false ->
  remap_raises f = false ->
  detection f = Some [] ->
  exists s',
    (iteration cfg mt f ;; send_land_target_message) s = (inr tt, s') /\
    is_landing_tag_detected s' = false /\
    outbox s' = outbox s /\
    link_faults s' = link_faults s.
Proof.
  intros Hw Hfi Hre Hd.
  assert (Hpose : exists s1,
             match pose_frame f with
             | Some (time_us, d) => process_pose cfg mt time_us d
             | None => pass
             end s = (inr tt, s1) /\
             outbox s1 = outbox s /\ link_faults s1 = link_faults s).
  { destruct (pose_frame f) as [[time_us d]|].
    - destruct (process_pose_result cfg mt time_us d s) as (s1 & R & _).
      destruct (process_pose_keeps_link cfg mt time_us d s) as [Lo Ll].
      rewrite R in Lo, Ll. exists s1. repeat split; assumption.
    - exists s. repeat split. }
  destruct Hpose as (s1 & R1 & Ho & Hlf).
  assert (Hit : iteration cfg mt f s =
                (inr tt, set_is_landing_tag_detected false s1)).
  { unfold iteration. rewrite Hw. rewrite (bind_inr _ _ _ _ _ R1).
    rewrite Hfi, Hre, Hd. reflexivity. }
  rewrite (bind_inr _ _ _ _ _ Hit).
  exists (set_is_landing_tag_detected false s1).
  split; [reflexivity|]. repeat split; assumption.
Qed.

(* ================================================================== *)
(** * Re-anchoring the origin (section 4.5) *)
(* ================================================================== *)

Lemma reanchor_text_test text :
  existsb (String.eqb text) reanchor_texts = true <-> In text reanchor_texts.
Proof.
  rewrite existsb_exists. split.
  - intros (x & Hx & E). apply String.eqb_eq in E. subst x. exact Hx.
  - intros H. exists text. split; [exact H|]. apply String.eqb_refl.
Qed.

(** X14.  While the link works, a STATUSTEXT with one of the three
    re-anchoring texts makes the callback send the origin and then the home
    position, both at the script's fixed coordinates, every time it
    arrives; any other text leaves the state as it is. *)
Theorem origin_is_reanchored text s :
  link_faults s = [] ->
  (In text reanchor_texts ->
   exists s',
     statustext_callback text s = (inr tt, s') /\
     outbox s' = outbox s ++ [origin_message; home_message]) /\
  (~ In text reanchor_texts -> statustext_callback text s = (inr tt, s)).
Proof.
  intros Hf. split; intros Ht.
  - apply reanchor_text_test in Ht. unfold statustext_callback.
    change (existsb (String.eqb text) reanchor_texts = true) in Ht.
    unfold reanchor_texts in Ht. rewrite Ht.
    destruct s as [ct dt cc Ha Hc fl hy sf ob lf lg]. cbn in Hf. subst lf.
    unfold set_default_global_origin, set_default_home_position.
    unfold_prog. cbn. eexists. split; [reflexivity|]. cbn.
    rewrite <- app_assoc. reflexivity.
  - unfold statustext_callback.
    destruct (existsb (String.eqb text) _) eqn:E; [|reflexivity].
    exfalso. apply Ht. apply reanchor_text_test. exact E.
Qed.

(** X15.  The two messages of a re-anchoring are sent independently: when
    the first call on the link raises, so that the origin is not sent, and
    the next two calls succeed, the home position is still sent. *)
Theorem home_is_sent_though_origin_fails text s rest :
  In text reanchor_texts ->
  link_faults s = true :: rest ->
  forallb negb (firstn 2 rest) = true ->
  exists s',
    statustext_callback text s = (inr tt, s') /\
    outbox s' = outbox s ++ [home_message].
Proof.
  intros Ht Hf Hr. apply reanchor_text_test in Ht.
  unfold statustext_callback. unfold reanchor_texts in Ht. rewrite Ht.
  destruct s as [ct dt cc Ha Hc fl hy sf ob lf lg]. cbn in Hf. subst lf.
  unfold set_default_global_origin, set_default_home_position.
  destruct rest as [|[|] [|[|] rest]]; cbn in Hr; try discriminate;
    unfold_prog; cbn; split_faults;
    eexists; (split; [reflexivity|]); reflexivity.
Qed.

(* ================================================================== *)
(** * The scheduler's tasks at the edges *)
(* ================================================================== *)

(** X16.  The level is remembered as emitted exactly when the percentage
    message went through: on a tick with a valid level, if the three link
    calls for that message (encode, send, flush) succeed the level is
    recorded, even if the status notification then fails; if one of them
    raises the remembered level is left as it was, no status notification
    is sent, and the change is still pending for the next tick. *)
Theorem level_recorded_when_percentage_sent s d :
  data s = Some d ->
  valid_level (tracker_confidence d) ->
  let s' := snd (send_confidence_level_dummy_message s) in
  (next_calls_succeed 3 s = true ->
   current_confidence s' = Some (tracker_confidence d)) /\
  (next_calls_succeed 3 s = false ->
   current_confidence s' = current_confidence s /\
   statustext_count s' = statustext_count s).
Proof.
  intros Hd Hv. apply valid_level_test in Hv.
  destruct s as [ct dt cc Ha Hc fl hy sf ob lf lg]. cbn in Hd. subst dt.
  unfold send_confidence_level_dummy_message, next_calls_succeed,
    statustext_count.
  destruct lf as [|[|] [|[|] [|[|] lf]]]; cbn [link_faults firstn forallb negb andb];
    (split; intros Hn; try discriminate Hn);
    unfold_prog; cbn; rewrite Hv; cbn;
    repeat (first
              [ progress split_faults
              | match goal with
                | |- context [match ?c with Some _ => _ | None => _ end] =>
                    is_var c; destruct c; cbn
                | |- context [negb (?a =? ?b)%Z] =>
                    destruct (a =? b)%Z eqn:?; cbn
                end ]);
    rewrite ?filter_app, ?length_app; cbn;
    try (split; [reflexivity|lia]); try reflexivity;
    match goal with
    | H : (_ =? _)%Z = true |- _ => apply Z.eqb_eq in H; subst; reflexivity
    end.
Qed.

Lemma tick_with_nothing_published cfg mt e s :
  is_tick e = true -> nothing_published s -> react cfg mt e s = (inr tt, s).
Proof.
  intros He (Hd & Hh & Hf). destruct e; try discriminate; simpl.
  - unfold send_vision_position_message. unfold bind, get. rewrite Hh.
    reflexivity.
  - unfold send_confidence_level_dummy_message. unfold bind, get. rewrite Hd.
    reflexivity.
  - unfold send_land_target_message. unfold bind, get. rewrite Hf.
    reflexivity.
Qed.

(** X17.  Until the first pose sample and the first detection are
    published, the scheduler's ticks do nothing at all: any number of
    them, in any order, leaves every global, the outbox, the link and the
    log untouched. *)
Theorem ticks_before_first_frame_do_nothing cfg mt es s :
  forallb is_tick es = true ->
  nothing_published s ->
  run cfg mt es s = (inr tt, s).
Proof.
  intros He Hs. induction es as [|e es IH]; simpl.
  - reflexivity.
  - simpl in He. apply andb_true_iff in He. destruct He as [He Hes].
    rewrite (bind_inr _ _ _ _ _ (tick_with_nothing_published cfg mt e s He Hs)).
    apply IH. exact Hes.
Qed.

(* ================================================================== *)
(** * The lock is always given back *)
(* ================================================================== *)

(** X18.  No thread waits for anything while it holds [frame_mutex]: in
    every reachable state in which the lock is held, its holder can take
    its next steps, and after at most four of them (two for the operator)
    the lock is free again. *)
Theorem lock_is_released_in_bounded_steps s :
  ScaleLock.reachable s ->
  forall holder, ScaleLock.frame_mutex s = Some holder ->
  exists n s',
    (n <= match holder with ScaleLock.Main => 4 | ScaleLock.Operator => 2 end)%nat /\
    ScaleLock.fire_all
      (repeat match holder with
              | ScaleLock.Main => ScaleLock.Main_steps
              | ScaleLock.Operator => ScaleLock.Operator_steps
              end n) s = Some s' /\
    ScaleLock.frame_mutex s' = None.
Proof.
  intros [acts F] holder Hh.
  destruct (invariant_fire_all acts _ _ invariant_start F) as [L _].
  unfold lock_invariant, ScaleLock.main_in_with, ScaleLock.operator_in_with
    in L.
  destruct s as [lk k m o]. cbn in Hh. subst lk. cbn in L.
  destruct holder.
  - destruct m as [|d H|d H|d H|d H|d H|d H];
      destruct o as [|p|p|r|r]; try discriminate L; try contradiction.
    all: first
           [ exists 4%nat; eexists; split; [lia|]; split; reflexivity
           | exists 3%nat; eexists; split; [lia|]; split; reflexivity
           | exists 2%nat; eexists; split; [lia|]; split; reflexivity
           | exists 1%nat; eexists; split; [lia|]; split; reflexivity ].
  - destruct m as [|d H|d H|d H|d H|d H|d H];
      destruct o as [|p|[v|]|r|r]; try discriminate L; try contradiction.
    all: first
           [ exists 2%nat; eexists; split; [lia|]; split; reflexivity
           | exists 1%nat; eexists; split; [lia|]; split; reflexivity ].
Qed.

(* ================================================================== *)
(** * The heading reaches the autopilot *)
(* ================================================================== *)

Lemma tan_plus_PI x : cos x <> 0 -> tan (x + PI) = tan x.
Proof.
  intros Hc. unfold tan. rewrite neg_sin, neg_cos. field. exact Hc.
Qed.

Lemma cos_negative_side x : - PI < x <= - (PI / 2) -> cos x <= 0.
Proof.
  intros [H1 H2]. rewrite <- cos_neg. apply cos_le_0; lra.
Qed.

(** [atan2] recovers an angle of (-PI, PI] from its sine and cosine. *)
Lemma atan2_sin_cos x : - PI < x <= PI -> atan2 (sin x) (cos x) = x.
Proof.
  intros [Hlo Hhi]. pose proof PI_RGT_0 as Hpi. unfold atan2.
  destruct (Rlt_dec 0 (cos x)) as [Hc|Hc].
  - (* the right half-plane *)
    assert (Hx : - (PI / 2) < x < PI / 2).
    { split.
      - destruct (Rlt_dec (- (PI / 2)) x) as [H|H]; [exact H|].
        pose proof (cos_negative_side x). lra.
      - destruct (Rlt_dec x (PI / 2)) as [H|H]; [exact H|].
        pose proof (cos_le_0 x). lra. }
    fold (tan x). apply atan_tan. exact Hx.
  - destruct (Rlt_dec (cos x) 0) as [Hn|Hn].
    + destruct (Rle_dec 0 (sin x)) as [Hs|Hs].
      * (* second quadrant *)
        assert (Hx : PI / 2 < x).
        { destruct (Rlt_dec (PI / 2) x) as [H|H]; [exact H|].
          destruct (Rlt_dec x 0) as [H0|H0].
          - pose proof (sin_lt_0_var x). lra.
          - pose proof (cos_ge_0 x). lra. }
        fold (tan x).
        replace (tan x) with (tan (x - PI)).
        { rewrite atan_tan by lra. ring. }
        rewrite <- (tan_plus_PI (x - PI)).
        { f_equal. ring. }
        replace (x - PI) with (- (PI - x)) by ring.
        rewrite cos_neg. unfold Rminus. rewrite Rplus_comm.
        rewrite neg_cos, cos_neg. lra.
      * (* third quadrant *)
        assert (Hx : x < - (PI / 2)).
        { destruct (Rlt_dec x (- (PI / 2))) as [H|H]; [exact H|].
          destruct (Rlt_dec x 0) as [H0|H0].
          - pose proof (cos_ge_0 x). lra.
          - pose proof (sin_ge_0 x). lra. }
        fold (tan x).
        rewrite <- (tan_plus_PI x) by lra.
        rewrite atan_tan by lra. ring.
    + (* on the vertical axis *)
      assert (Hc0 : cos x = 0) by lra.
      assert (Hx : x = PI / 2 \/ x = - (PI / 2)).
      { destruct (Rlt_dec (PI / 2) x) as [H|H].
        { pose proof (cos_lt_0 x). lra. }
        destruct (Rlt_dec x (- (PI / 2))) as [H'|H'].
        { pose proof (cos_lt_0 (- x)). rewrite cos_neg in *. lra. }
        destruct (Req_dec_T x (PI / 2)) as [E|E]; [left; exact E|].
        destruct (Req_dec_T x (- (PI / 2))) as [E'|E']; [right; exact E'|].
        pose proof (cos_gt_0 x). lra. }
      destruct Hx as [-> | ->].
      * rewrite sin_PI2.
        destruct (Rlt_dec 0 1) as [_|N]; [reflexivity|lra].
      * rewrite sin_neg, sin_PI2.
        destruct (Rlt_dec 0 (- (1))) as [N|_]; [lra|].
        destruct (Rlt_dec (- (1)) 0) as [_|N]; [reflexivity|lra].
Qed.

Lemma _EPS_below_1 : _EPS < 1.
Proof.
  unfold _EPS.
  assert (H : 1 < 2 ^ 50) by (apply Rlt_pow_R1; [lra|lia]).
  replace (2 ^ 52) with (4 * 2 ^ 50) by (change 52%nat with (2 + 50)%nat;
                                         rewrite pow_add; simpl; ring).
  apply Rmult_lt_reg_r with (4 * 2 ^ 50); [lra|].
  unfold Rdiv. rewrite Rmult_assoc, Rinv_l by lra. lra.
Qed.

(** The quaternion (1, 0, 0, 0) is no rotation. *)
Lemma quaternion_matrix_identity : quaternion_matrix (1, 0, 0, 0) = identity4.
Proof.
  unfold quaternion_matrix.
  destruct (Rlt_dec _ _) as [H|_]; [pose proof _EPS_below_1; lra|].
  unfold outer, identity4. cbn. tuple_eq; ring.
Qed.

Lemma euler_from_matrix_rotation_part m :
  euler_from_matrix (rotation_part m) = euler_from_matrix m.
Proof. destruct_mat m. reflexivity. Qed.

(** Round trip: the angles read back from a yaw-only rotation are no roll,
    no pitch and the yaw itself. *)
Lemma euler_from_yaw_rotation yaw :
  - PI < yaw <= PI -> euler_from_matrix (yaw_rotation yaw) = (0, 0, yaw).
Proof.
  intros Hy. unfold euler_from_matrix, yaw_rotation. cbn.
  replace (cos yaw * cos yaw + sin yaw * sin yaw) with 1.
  2:{ pose proof (sin2_cos2 yaw) as H. unfold Rsqr in H. lra. }
  rewrite sqrt_1.
  destruct (Rlt_dec _EPS 1) as [_|N]; [|pose proof _EPS_below_1; lra].
  rewrite Ropp_0, (atan2_zero_numerator 1) by lra.
  rewrite (atan2_sin_cos yaw Hy). reflexivity.
Qed.

Lemma mmul_identity_l a : mmul identity4 a = a.
Proof.
  destruct_mat a. unfold mmul, mbuild, identity4. cbn. tuple_eq; ring.
Qed.

Lemma rotation_part_rigid_identity x y z :
  rotation_part (rigid identity4 x y z) = identity4.
Proof. reflexivity. Qed.

(** The two mount transforms of the forward-facing camera undo each
    other. *)
Lemma forward_mounts_cancel :
  mmul (rotation_part H_aeroRef_T265Ref_const)
       (rotation_part ((0, 1, 0, 0), (0, 0, -1, 0), (-1, 0, 0, 0),
                       (0, 0, 0, 1))) = identity4.
Proof.
  unfold rotation_part, mmul, mbuild, H_aeroRef_T265Ref_const, identity4.
  cbn. tuple_eq; ring.
Qed.

Lemma forward_nav_rotation cfg mt k h d :
  camera_orientation cfg = 0%Z ->
  select_mounts (camera_orientation cfg) = Some mt ->
  (body_offset_enabled cfg =? 1)%Z = false ->
  rotation d = mkQuaternion 1 0 0 0 ->
  rotation_part (spec_nav_pose cfg mt k (Some h) d) =
  rotation_part (yaw_rotation h).
Proof.
  intros Ho Hm Hb Hq. rewrite Ho in Hm. rewrite select_mounts_forward in Hm.
  injection Hm as <-.
  unfold spec_nav_pose, spec_sensor_local. cbv zeta. rewrite Hb, Hq.
  cbn [qw qx qy qz H_aeroRef_T265Ref H_T265body_aeroBody].
  rewrite quaternion_matrix_identity.
  repeat rewrite rotation_part_mmul
    by (repeat first [reflexivity | apply bottom_row_mmul]).
  rewrite rotation_part_rigid_identity, mmul_identity_r.
  rewrite forward_mounts_cancel. apply mmul_identity_l.
Qed.

(** X19.  Compass alignment end to end, for the forward-facing camera
    without body offset: while the sensor reports no rotation (the
    quaternion (1, 0, 0, 0)), the attitude sent to the autopilot after a
    pose sample is roll 0, pitch 0 and, as yaw, the stored heading
    reference (taken in (-PI, PI]). *)
Theorem heading_is_reported_as_yaw cfg mt f time_us d h s :
  camera_orientation cfg = 0%Z ->
  select_mounts (camera_orientation cfg) = Some mt ->
  body_offset_enabled cfg <> 1%Z ->
  compass_enabled cfg = 1%Z ->
  heading_north_yaw s = Some h ->
  - PI < h <= PI ->
  rotation d = mkQuaternion 1 0 0 0 ->
  wait_for_frames_raises f = false ->
  pose_frame f = Some (time_us, d) ->
  next_calls_succeed 2 s = true ->
  exists s',
    (iteration cfg mt f ;; send_vision_position_message) s = (inr tt, s') /\
    outbox s' =
      outbox s
      ++ [VISION_POSITION_ESTIMATE
            time_us
            (- (vz (translation d) * scale_factor s))
            (vx (translation d) * scale_factor s)
            (- (vy (translation d) * scale_factor s))
            0 0 h].
Proof.
  intros Hor Hm Ho Hc Hh Hrange Hq Hw Hp Hf. apply Z.eqb_neq in Ho.
  destruct (iteration_with_pose cfg mt f time_us d s Hw Hp)
    as (s1 & s2 & R1 & R2 & (Kt & Kh & Ko & Kl) & _).
  destruct (process_pose_result cfg mt time_us d s) as (s1' & R1' & Hn & _ & Ht).
  rewrite R1 in R1'. injection R1' as <-.
  destruct (process_pose_keeps_link cfg mt time_us d s) as [Lo Ll].
  rewrite R1 in Lo, Ll. simpl in Lo, Ll.
  rewrite (bind_inr _ _ _ _ _ R2).
  assert (Hf2 : next_calls_succeed 2 s2 = true).
  { rewrite (next_calls_succeed_same 2 s s2); [exact Hf|congruence]. }
  rewrite Hc, Hh in Hn.
  change (if (1 =? 1)%Z then Some h else None) with (Some h) in Hn.
  rewrite <- Kh in Hn.
  destruct (vision_tick s2 _ Hn Hf2) as (s' & R & O).
  rewrite (spec_nav_pose_position cfg mt _ _ d Hm Ho) in O.
  rewrite <- euler_from_matrix_rotation_part in O.
  rewrite (forward_nav_rotation cfg mt _ h d Hor Hm Ho Hq) in O.
  rewrite euler_from_matrix_rotation_part in O.
  rewrite (euler_from_yaw_rotation h Hrange) in O.
  exists s'. split; [exact R|].
  rewrite O, Ko, Lo, Kt, Ht. reflexivity.
Qed.

(* ================================================================== *)
(** * The properties above at concrete inputs *)
(* ================================================================== *)

Lemma reachable_after cfg mt faults es :
  select_mounts (camera_orientation cfg) = Some mt ->
  reachable cfg (snd (run cfg mt es (initial_state faults))).
Proof.
  intros Hm. exists mt, faults, es, (fst (run cfg mt es (initial_state faults))).
  split; [exact Hm|]. apply surjective_pairing.
Defined.

Lemma scale_factor_fixed_without_calibration_witness :
  scale_factor
    (snd (run default_config downward_mounts
              [Operator_input (Some 2); Main_loop frames_without_images]
              (initial_state []))) = 1.
Proof.
  apply (scale_factor_fixed_without_calibration default_config).
  - apply reachable_after. reflexivity.
  - reflexivity.
Defined.


Lemma detected_flag_has_geometry_witness :
  exists x y z,
    H_camera_tag
      (snd (run default_config downward_mounts
                [Main_loop (frames_with_tags [mkTag 0 (1, 2, 3)])]
                (initial_state []))) = Some (translation_matrix x y z).
Proof.
  apply (detected_flag_has_geometry default_config).
  - apply reachable_after. reflexivity.
  - reflexivity.
Defined.

Lemma nav_pose_is_rigid_witness :
  exists s' H,
    process_pose default_config downward_mounts 1000000 sample_pose
                 (initial_state []) = (inr tt, s') /\
    H_aeroRef_aeroBody s' = Some H /\
    is_rigid H.
Proof.
  apply (nav_pose_is_rigid default_config downward_mounts).
  reflexivity.
Defined.

Lemma nav_position_is_scaled_sensor_position_witness :
  exists s' H,
    process_pose default_config downward_mounts 1000000 sample_pose
                 (initial_state []) = (inr tt, s') /\
    H_aeroRef_aeroBody s' = Some H /\
    translation_from_matrix H = (- (3 * 1), 1 * 1, - (2 * 1)).
Proof.
  apply (nav_position_is_scaled_sensor_position
           default_config downward_mounts 1000000 sample_pose
           (initial_state [])).
  - reflexivity.
  - simpl. lia.
Defined.

Lemma pose_sample_reaches_the_autopilot_witness :
  exists s' roll pitch yaw,
    (iteration default_config downward_mounts frames_without_images ;;
     send_vision_position_message) (initial_state []) = (inr tt, s') /\
    outbox s' =
      [VISION_POSITION_ESTIMATE 1000000 (- (3 * 1)) (1 * 1) (- (2 * 1))
                                roll pitch yaw].
Proof.
  apply (pose_sample_reaches_the_autopilot
           default_config downward_mounts frames_without_images
           1000000 sample_pose (initial_state [])).
  - reflexivity.
  - simpl. lia.
  - reflexivity.
  - reflexivity.
  - reflexivity.
Defined.

Lemma detection_reaches_the_autopilot_witness :
  exists s',
    (iteration default_config downward_mounts frames_with_two_landing_tags ;;
     send_land_target_message) (initial_state []) = (inr tt, s') /\
    outbox s' =
      [LANDING_TARGET 1000000 0 MAV_FRAME_BODY_NED
                      (atan2 2 1) (atan2 0 1) (sqrt (2 * 2 + 0 * 0 + 1 * 1))
                      0 0 0 0 0 (1, 0, 0, 0) 2 1].
Proof.
  apply (detection_reaches_the_autopilot
           default_config downward_mounts frames_with_two_landing_tags
           [mkTag 0 (1, 0, 1); mkTag 0 (2, 0, 1)] (mkTag 0 (2, 0, 1))
           (initial_state [])).
  - reflexivity.
  - reflexivity.
  - reflexivity.
  - reflexivity.
  - reflexivity.
  - simpl. lra.
  - reflexivity.
Defined.

Lemma empty_detection_stops_the_reports_witness :
  let s := set_is_landing_tag_detected true
             (set_H_camera_tag (Some (translation_matrix 0 0 1))
                               (initial_state [true])) in
  exists s',
    (iteration default_config downward_mounts (frames_with_tags []) ;;
     send_land_target_message) s = (inr tt, s') /\
    is_landing_tag_detected s' = false /\
    outbox s' = [] /\
    link_faults s' = [true].
Proof.
  apply (empty_detection_stops_the_reports
           default_config downward_mounts (frames_with_tags [])
           (set_is_landing_tag_detected true
              (set_H_camera_tag (Some (translation_matrix 0 0 1))
                                (initial_state [true]))));
    reflexivity.
Defined.

Lemma origin_is_reanchored_witness :
  exists s',
    statustext_callback "GPS Glitch" (initial_state []) = (inr tt, s') /\
    outbox s' = [origin_message; home_message].
Proof.
  apply (proj1 (origin_is_reanchored "GPS Glitch" (initial_state [])
                                     eq_refl)).
  left. reflexivity.
Defined.

Lemma home_is_sent_though_origin_fails_witness :
  exists s',
    statustext_callback "GPS Glitch cleared"
                        (initial_state [true; false; false]) = (inr tt, s') /\
    outbox s' = [home_message].
Proof.
  apply (home_is_sent_though_origin_fails
           "GPS Glitch cleared" (initial_state [true; false; false])
           [false; false]).
  - right. left. reflexivity.
  - reflexivity.
  - reflexivity.
Defined.

Lemma level_recorded_when_percentage_sent_witness :
  let s := with_confidence 2 (initial_state [false; true]) in
  let s' := snd (send_confidence_level_dummy_message s) in
  current_confidence s' = None /\ statustext_count s' = 0%nat.
Proof.
  apply (level_recorded_when_percentage_sent
           (with_confidence 2 (initial_state [false; true]))
           (mkPose (mkVector 0 0 0) (mkQuaternion 1 0 0 0) 2)).
  - reflexivity.
  - unfold valid_level. simpl. lia.
  - reflexivity.
Defined.

Lemma ticks_before_first_frame_do_nothing_witness :
  run default_config downward_mounts
      [Tick_vision_position; Tick_confidence; Tick_land_target;
       Tick_confidence]
      (initial_state [true]) = (inr tt, initial_state [true]).
Proof.
  apply (ticks_before_first_frame_do_nothing default_config downward_mounts).
  - reflexivity.
  - repeat split.
Defined.

Lemma lock_is_released_in_bounded_steps_witness :
  exists n s',
    (n <= 4)%nat /\
    ScaleLock.fire_all (repeat ScaleLock.Main_steps n) lock_held_example_end
      = Some s' /\
    ScaleLock.frame_mutex s' = None.
Proof.
  apply (lock_is_released_in_bounded_steps
           lock_held_example_end) with (holder := ScaleLock.Main).
  - exists lock_held_example. reflexivity.
  - reflexivity.
Defined.

Lemma heading_is_reported_as_yaw_witness :
  let s := set_heading_north_yaw (Some (PI / 2)) (initial_state []) in
  exists s',
    (iteration forward_compass_config forward_mounts frames_without_images ;;
     send_vision_position_message) s = (inr tt, s') /\
    outbox s' =
      [VISION_POSITION_ESTIMATE 1000000 (- (3 * 1)) (1 * 1) (- (2 * 1))
                                0 0 (PI / 2)].
Proof.
  apply (heading_is_reported_as_yaw
           forward_compass_config forward_mounts frames_without_images
           1000000 sample_pose (PI / 2)
           (set_heading_north_yaw (Some (PI / 2)) (initial_state []))).
  - reflexivity.
  - exact select_mounts_forward.
  - simpl. lia.
  - reflexivity.
  - reflexivity.
  - pose proof PI_RGT_0. lra.
  - reflexivity.
  - reflexivity.
  - reflexivity.
  - reflexivity.
Defined.
